(** * Scheduling metrics of an execution trace (metrics_101258593.py)

    A shallow embedding of [parse_execution_file] and [compute_metrics]
    and the properties of the metrics they derive.

    Conventions of the embedding:
    - a Python [str] is a [string]; a Python [int] is a [Z];
    - the five dictionaries of [compute_metrics] are [gmap string Z];
    - a Python exception is a value of [py_error], carried by [result];
    - a Python [float] is the rational number it stands for, a [Qc], so
      [0.0] is [0%Qc] (and [-0.0] is not told from [0.0]); no [inf] or
      [nan] arises in this program;
    - the true division [a / b] of two ints raises [ZeroDivisionError]
      when [b] is zero, yields the double nearest to the quotient, ties
      going to the even significand, and raises [OverflowError] when that
      double would be [2 ^ 1024] or more in magnitude;
    - [parse_execution_file] starts from the list that [f.readlines()]
      returns; [main] gets that list from [readlines], which may raise
      instead, as [open] does on a path that cannot be read;
    - writing to standard output is taken to succeed. *)

From Stdlib Require Import ZArith QArith Qcanon Ascii String List Lia.
From stdpp Require Import gmap strings list fin_maps.

Open Scope string_scope.
Open Scope list_scope.
Open Scope Z_scope.

(** ** Exceptions *)

Inductive py_error : Type :=
  | RuntimeError
  | ValueError
  | ZeroDivisionError
  | OverflowError
  | OSError.

Inductive result (A : Type) : Type :=
  | Ok (a : A)
  | Raise (e : py_error).
Arguments Ok {A} a.
Arguments Raise {A} e.

(** An exception raised by a statement ends the function: later
    statements run only on [Ok]. *)
#[global] Instance result_bind : MBind result := fun A B k r =>
  match r with
  | Ok a => k a
  | Raise e => Raise e
  end.

(** ** Transition records *)

(** One tuple [(time, pid, old, new)] of the list [transitions]. *)
Record transition : Type := Transition {
  tr_time : Z;
  tr_pid : string;
  tr_old : string;
  tr_new : string
}.

(** ** The scan of [compute_metrics] *)

(** The five dictionaries created at the top of [compute_metrics]. *)
Record timelines : Type := Timelines {
  arrivals : gmap string Z;
  first_run : gmap string Z;
  finish_time : gmap string Z;
  wait_time : gmap string Z;
  last_ready_time : gmap string Z
}.

Definition empty_timelines : timelines :=
  Timelines ∅ ∅ ∅ ∅ ∅.

(** [if new == "READY" and old == "NEW": ...] *)
Definition on_arrival (tr : transition) (st : timelines) : timelines :=
  if String.eqb (tr_new tr) "READY" && String.eqb (tr_old tr) "NEW" then
    Timelines (<[tr_pid tr := tr_time tr]> (arrivals st))
              (first_run st) (finish_time st) (wait_time st)
              (<[tr_pid tr := tr_time tr]> (last_ready_time st))
  else st.

(** [if new == "RUNNING": ...] *)
Definition on_running (tr : transition) (st : timelines) : timelines :=
  if String.eqb (tr_new tr) "RUNNING" then
    let fr :=
      match first_run st !! tr_pid tr with
      | None => <[tr_pid tr := tr_time tr]> (first_run st)
      | Some _ => first_run st
      end in
    let wt :=
      match last_ready_time st !! tr_pid tr with
      | Some ready =>
          <[tr_pid tr := default 0 (wait_time st !! tr_pid tr)
                         + (tr_time tr - ready)]> (wait_time st)
      | None => wait_time st
      end in
    Timelines (arrivals st) fr (finish_time st) wt (last_ready_time st)
  else st.

(** [if new == "TERMINATED": ...] *)
Definition on_terminated (tr : transition) (st : timelines) : timelines :=
  if String.eqb (tr_new tr) "TERMINATED" then
    Timelines (arrivals st) (first_run st)
              (<[tr_pid tr := tr_time tr]> (finish_time st))
              (wait_time st) (last_ready_time st)
  else st.

(** [if new == "READY" and old == "WAITING": ...] *)
Definition on_ready_again (tr : transition) (st : timelines) : timelines :=
  if String.eqb (tr_new tr) "READY" && String.eqb (tr_old tr) "WAITING" then
    Timelines (arrivals st) (first_run st) (finish_time st) (wait_time st)
              (<[tr_pid tr := tr_time tr]> (last_ready_time st))
  else st.

(** The body of the [for (time, pid, old, new) in transitions] loop: the
    four [if] statements run one after the other on the same record. *)
Definition step (st : timelines) (tr : transition) : timelines :=
  on_ready_again tr (on_terminated tr (on_running tr (on_arrival tr st))).

(** The loop from a given state of the dictionaries. *)
Definition scan_from (st : timelines) (ts : list transition) : timelines :=
  fold_left step ts st.

Definition scan (ts : list transition) : timelines :=
  scan_from empty_timelines ts.

(** ** Turnaround and response *)

(** [for pid in arrivals: if pid in finish_time:
       turnaround[pid] = finish_time[pid] - arrivals[pid]] *)
Definition turnaround (st : timelines) : gmap string Z :=
  map_imap (fun pid arrival =>
              match finish_time st !! pid with
              | Some finish => Some (finish - arrival)
              | None => None
              end) (arrivals st).

(** [for pid in arrivals: if pid in first_run:
       response[pid] = first_run[pid] - arrivals[pid]] *)
Definition response (st : timelines) : gmap string Z :=
  map_imap (fun pid arrival =>
              match first_run st !! pid with
              | Some run => Some (run - arrival)
              | None => None
              end) (arrivals st).

(** ** Aggregation *)

(** [sum(d.values())] *)
Definition dict_sum (d : gmap string Z) : Z :=
  map_fold (fun _ v acc => v + acc) 0 d.

(** [max(d.values())]; [max] of an empty sequence raises [ValueError]. *)
Definition dict_max (d : gmap string Z) : result Z :=
  match map_fold (fun _ v acc =>
                    match acc with
                    | None => Some v
                    | Some a => Some (Z.max a v)
                    end) None d with
  | Some a => Ok a
  | None => Raise ValueError
  end.

(** The quotient [a / b] of two ints as a rational. *)
Definition ratio (a b : Z) : Qc := Q2Qc (inject_Z a / inject_Z b).

(** *** Doubles

    Every finite double is a whole number of units of [2 ^ -1074], the
    least positive double. A double of magnitude [u] units has a
    significand of at most 53 bits: [u = m * 2 ^ j] with [m < 2 ^ 53] and
    [0 <= j]. The doubles end below [2 ^ 1024], that is [2 ^ 2098]
    units. *)
Definition double_scale : Z := 2 ^ 1074.
Definition double_limit : Z := 2 ^ 2098.

(** The integer nearest to [num / den] for [0 < den], the even one of
    the two when [num / den] lies half way between them. *)
Definition round_half_even (num den : Z) : Z :=
  let d := num / den in
  let r := num mod den in
  if 2 * r <? den then d
  else if den <? 2 * r then d + 1
  else if Z.even d then d else d + 1.

(** The number of low bits of [a / b], counted in units, that do not fit
    a significand of 53 bits: none while the quotient is below [2 ^ 53]
    units, which covers the subnormal doubles. *)
Definition ulp_exponent (a b : Z) : Z :=
  Z.max 0 (Z.log2 (a * double_scale / b) - 52).

(** The magnitude, in units, of the double nearest to [a / b] for
    [0 <= a] and [0 < b]: the quotient is rounded once, to a multiple of
    [2 ^ ulp_exponent a b] units. *)
Definition nearest_units (a b : Z) : Z :=
  let j := ulp_exponent a b in
  round_half_even (a * double_scale) (b * 2 ^ j) * 2 ^ j.

(** The same with the sign of the quotient. *)
Definition signed_units (a b : Z) : Z :=
  Z.sgn a * Z.sgn b * nearest_units (Z.abs a) (Z.abs b).

(** The value of the double nearest to [a / b]. *)
Definition nearest_double (a b : Z) : Qc :=
  ratio (signed_units a b) double_scale.

(** The double nearest to [a / b] is beyond the largest double. *)
Definition overflows (a b : Z) : bool :=
  double_limit <=? nearest_units (Z.abs a) (Z.abs b).

(** The magnitudes, in units, that a significand of 53 bits expresses. *)
Definition representable (u : Z) : Prop :=
  exists m i, 0 <= m < 2 ^ 53 /\ 0 <= i /\ u = m * 2 ^ i.

Arguments double_scale : simpl never.
Arguments double_limit : simpl never.
Arguments nearest_units : simpl never.
Arguments nearest_double : simpl never.
Arguments overflows : simpl never.

(** [a / b] on two ints. *)
Definition truediv (a b : Z) : result Qc :=
  if Z.eqb b 0 then Raise ZeroDivisionError
  else if overflows a b then Raise OverflowError
  else Ok (nearest_double a b).

(** The dictionary [metrics]. *)
Record metrics : Type := Metrics {
  throughput : Qc;
  avg_wait_time : Qc;
  avg_turnaround : Qc;
  avg_response : Qc
}.

(** [n = len(arrivals) if arrivals else 1] *)
Definition process_count (st : timelines) : Z :=
  if bool_decide (arrivals st = ∅) then 1 else Z.of_nat (size (arrivals st)).

(** [total / n if n > 0 else 0.0] *)
Definition average (total n : Z) : result Qc :=
  if 0 <? n then truediv total n else Ok (Q2Qc 0).

(** [n / total_finish_time if total_finish_time > 0 else 0.0] *)
Definition throughput_entry (n total_finish_time : Z) : result Qc :=
  if 0 <? total_finish_time then truediv n total_finish_time
  else Ok (Q2Qc 0).

Definition compute_metrics (ts : list transition) : result metrics :=
  let st := scan ts in
  let turnaround := turnaround st in
  let response := response st in
  if bool_decide (finish_time st = ∅) then Raise RuntimeError
  else
    let n := process_count st in
    total_finish_time ← dict_max (finish_time st);
    thr ← throughput_entry n total_finish_time;
    aw ← average (dict_sum (wait_time st)) n;
    at_ ← average (dict_sum turnaround) n;
    ar ← average (dict_sum response) n;
    Ok (Metrics thr aw at_ ar).

(** One of the divisions that [compute_metrics] takes on [ts] has a
    quotient beyond the largest double. *)
Definition metrics_overflow (ts : list transition) : bool :=
  let st := scan ts in
  let n := process_count st in
  match dict_max (finish_time st) with
  | Ok total_finish_time =>
      (0 <? total_finish_time) && overflows n total_finish_time
  | Raise _ => false
  end
  || overflows (dict_sum (wait_time st)) n
  || overflows (dict_sum (turnaround st)) n
  || overflows (dict_sum (response st)) n.

(** ** Text of the execution file

    A character is an [ascii], that is a code point below 256; the
    functions below are the methods of [str] that [parse_execution_file]
    calls, on such characters. *)

(** [c.isspace()], the characters removed by [str.strip()]. *)
Definition isspace (c : ascii) : bool :=
  let n := nat_of_ascii c in
  ((9 <=? n) && (n <=? 13) || (28 <=? n) && (n <=? 32)
   || (n =? 133) || (n =? 160))%nat.

(** The white space that [int()] skips around a literal. *)
Definition int_isspace (c : ascii) : bool :=
  let n := nat_of_ascii c in
  ((9 <=? n) && (n <=? 13) || (n =? 32) || (n =? 133) || (n =? 160))%nat.

Definition is_newline (c : ascii) : bool := Ascii.eqb c "010".

Fixpoint lstrip_chars (sp : ascii -> bool) (l : list ascii) : list ascii :=
  match l with
  | [] => []
  | c :: r => if sp c then lstrip_chars sp r else l
  end.

Definition rstrip_chars (sp : ascii -> bool) (l : list ascii) : list ascii :=
  rev (lstrip_chars sp (rev l)).

Definition strip_chars (sp : ascii -> bool) (l : list ascii) : list ascii :=
  rstrip_chars sp (lstrip_chars sp l).

(** [s.strip()] *)
Definition strip (s : string) : string :=
  string_of_list_ascii (strip_chars isspace (list_ascii_of_string s)).

(** [s.rstrip("\n")] *)
Definition rstrip_newline (s : string) : string :=
  string_of_list_ascii (rstrip_chars is_newline (list_ascii_of_string s)).

Fixpoint split_chars (sep : ascii) (l : list ascii) : list (list ascii) :=
  match l with
  | [] => [[]]
  | c :: r =>
      if Ascii.eqb c sep then [] :: split_chars sep r
      else match split_chars sep r with
           | w :: ws => (c :: w) :: ws
           | [] => [[c]]
           end
  end.

(** [s.split(sep)] for a separator of one character. *)
Definition split (sep : ascii) (s : string) : list string :=
  string_of_list_ascii <$> split_chars sep (list_ascii_of_string s).

(** [s.startswith(prefix)] *)
Fixpoint startswith (s prefix : string) {struct prefix} : bool :=
  match prefix with
  | EmptyString => true
  | String a prefix' =>
      match s with
      | EmptyString => false
      | String b s' => Ascii.eqb a b && startswith s' prefix'
      end
  end.

Definition is_digit (c : ascii) : bool :=
  let n := nat_of_ascii c in ((48 <=? n) && (n <=? 57))%nat.

Definition digit_value (c : ascii) : Z := Z.of_nat (nat_of_ascii c) - 48.

(** The digits of a decimal literal, where single underscores may stand
    between digits: the value read and the number of digits, or [None]
    when the text is not such a literal. [prev_digit] tells whether the
    character before was a digit. *)
Fixpoint int_digits (prev_digit : bool) (acc : Z) (count : nat)
    (l : list ascii) : option (Z * nat) :=
  match l with
  | [] => if prev_digit then Some (acc, count) else None
  | c :: r =>
      if is_digit c then
        int_digits true (10 * acc + digit_value c) (S count) r
      else if Ascii.eqb c "_" then
        if prev_digit then int_digits false acc count r else None
      else None
  end.

Section ParseExecutionFile.

(** [sys.get_int_max_str_digits()]: the longest literal [int()]
    converts, 4300 digits unless set otherwise; 0 lifts the limit. *)
Variable int_max_str_digits : nat.

(** [int(s)]: white space around, an optional sign, then the digits. *)
Definition int_of_str (s : string) : result Z :=
  let l := strip_chars int_isspace (list_ascii_of_string s) in
  let signed :=
    match l with
    | c :: r =>
        if Ascii.eqb c "-" then (true, r)
        else if Ascii.eqb c "+" then (false, r)
        else (false, l)
    | [] => (false, l)
    end in
  match int_digits false 0 0 signed.2 with
  | Some (v, digits) =>
      if ((0 <? int_max_str_digits) && (int_max_str_digits <? digits))%nat
      then Raise ValueError
      else Ok (if signed.1 then - v else v)
  | None => Raise ValueError
  end.

(** The body of the [for line in lines] loop: the transition appended
    for [line], or [None] where the body ends in [continue]. *)
Definition parse_row (line : string) : option transition :=
  let line := rstrip_newline line in
  if startswith (strip line) "+" then None
  else if negb (startswith (strip line) "|") then None
  else
    let cols := strip <$> split "|" line in
    match cols with
    | _ :: time_str :: pid :: old_state :: new_state :: _ =>
        if startswith time_str "Time" then None
        else
          match int_of_str time_str with
          | Ok time => Some (Transition time pid old_state new_state)
          | Raise _ => None
          end
    | _ => None
    end.

(** [parse_execution_file], given what [f.readlines()] returned. *)
Definition parse_execution_file (lines : list string) : list transition :=
  fold_left (fun transitions line =>
               match parse_row line with
               | Some tr => transitions ++ [tr]
               | None => transitions
               end) lines [].

(** [cols] of a line, and its entry [i]. *)
Definition columns (line : string) : list string :=
  strip <$> split "|" (rstrip_newline line).

Definition column (i : nat) (line : string) : string :=
  nth i (columns line) "".

(** The rows that [parse_execution_file] keeps, with the transition it
    reads from each: a table row of at least 5 segments that is not the
    header and whose time field [int()] converts. *)
Definition accepted_row (line : string) (tr : transition) : Prop :=
  startswith (strip (rstrip_newline line)) "|" = true /\
  (5 <= length (columns line))%nat /\
  startswith (column 1 line) "Time" = false /\
  int_of_str (column 1 line) = Ok (tr_time tr) /\
  tr_pid tr = column 2 line /\
  tr_old tr = column 3 line /\
  tr_new tr = column 4 line.

End ParseExecutionFile.

Definition newline : string := String "010" EmptyString.

(** The table of the docstring of [parse_execution_file]. *)
Definition sample_file : list string :=
  [ "+------------------------------------------------+" +:+ newline;
    "|Time of Transition |PID | Old State | New State |" +:+ newline;
    "+------------------------------------------------+" +:+ newline;
    "|                 0 |  1 |       NEW |     READY |" +:+ newline;
    "|                 0 |  1 |     READY |   RUNNING |" +:+ newline ].

(** A row whose time field carries a minus sign. *)
Definition negative_time_file : list string :=
  [ "|                -5 |  1 |       NEW |     READY |" +:+ newline ].

(** ** The view of one process

    What the five dictionaries hold for one process id, and the loop body
    as it acts on that view. *)

Record process_view : Type := ProcessView {
  v_arrival : option Z;
  v_first_run : option Z;
  v_finish : option Z;
  v_wait : option Z;
  v_last_ready : option Z
}.

Definition view (p : string) (st : timelines) : process_view :=
  ProcessView (arrivals st !! p) (first_run st !! p) (finish_time st !! p)
              (wait_time st !! p) (last_ready_time st !! p).

Definition empty_view : process_view :=
  ProcessView None None None None None.

Definition view_arrival (tr : transition) (v : process_view) : process_view :=
  if String.eqb (tr_new tr) "READY" && String.eqb (tr_old tr) "NEW" then
    ProcessView (Some (tr_time tr)) (v_first_run v) (v_finish v) (v_wait v)
                (Some (tr_time tr))
  else v.

Definition view_running (tr : transition) (v : process_view) : process_view :=
  if String.eqb (tr_new tr) "RUNNING" then
    ProcessView (v_arrival v)
                (match v_first_run v with
                 | None => Some (tr_time tr)
                 | Some r => Some r
                 end)
                (v_finish v)
                (match v_last_ready v with
                 | Some ready =>
                     Some (default 0 (v_wait v) + (tr_time tr - ready))
                 | None => v_wait v
                 end)
                (v_last_ready v)
  else v.

Definition view_terminated (tr : transition) (v : process_view)
  : process_view :=
  if String.eqb (tr_new tr) "TERMINATED" then
    ProcessView (v_arrival v) (v_first_run v) (Some (tr_time tr)) (v_wait v)
                (v_last_ready v)
  else v.

Definition view_ready_again (tr : transition) (v : process_view)
  : process_view :=
  if String.eqb (tr_new tr) "READY" && String.eqb (tr_old tr) "WAITING" then
    ProcessView (v_arrival v) (v_first_run v) (v_finish v) (v_wait v)
                (Some (tr_time tr))
  else v.

Definition view_step (v : process_view) (tr : transition) : process_view :=
  view_ready_again tr (view_terminated tr (view_running tr (view_arrival tr v))).

(** The transitions of process [p], in the order of the trace. *)
Definition lifecycle (p : string) (ts : list transition) : list transition :=
  filter (fun tr => tr_pid tr = p) ts.

(** ** Arrivals recorded by a trace *)

(** The times of the NEW -> READY transitions of process [p], in the order
    of the trace. *)
Definition arrival_times (p : string) (ts : list transition) : list Z :=
  tr_time <$>
    filter (fun tr => tr_pid tr = p /\ tr_new tr = "READY" /\ tr_old tr = "NEW")
           ts.

Definition first_arrival (p : string) (ts : list transition) : option Z :=
  head (arrival_times p ts).

Definition last_arrival (p : string) (ts : list transition) : option Z :=
  last (arrival_times p ts).

(** ** Completed processes *)

(** [a] is the latest time held by the dictionary [d]: some entry has it
    and no entry exceeds it. *)
Definition is_latest (d : gmap string Z) (a : Z) : Prop :=
  (exists k, d !! k = Some a) /\ (forall k v, d !! k = Some v -> v <= a).

(** ** Well-formed lifecycles *)

(** The shape NEW -> READY, READY -> RUNNING, ..., TERMINATED of the
    transitions of one process: the first is NEW -> READY, the second
    READY -> RUNNING, none after them enters READY again, and the last one
    enters TERMINATED. Time stamps play no part in it. *)
Definition well_formed_lifecycle (l : list transition) : bool :=
  match l with
  | a :: b :: rest =>
      String.eqb (tr_old a) "NEW" && String.eqb (tr_new a) "READY"
      && String.eqb (tr_old b) "READY" && String.eqb (tr_new b) "RUNNING"
      && forallb (fun tr => negb (String.eqb (tr_new tr) "READY")) rest
      && match last rest with
         | Some z => String.eqb (tr_new z) "TERMINATED"
         | None => false
         end
  | _ => false
  end.

(** Every process of the trace has a well-formed lifecycle. *)
Definition well_formed_trace (ts : list transition) : bool :=
  forallb (fun tr => well_formed_lifecycle (lifecycle (tr_pid tr) ts)) ts.

Fixpoint nondecreasing (l : list Z) : bool :=
  match l with
  | [] => true
  | a :: r =>
      match r with
      | [] => true
      | b :: _ => (a <=? b) && nondecreasing r
      end
  end.

(** The time stamps of every process never go back along its lifecycle. *)
Definition time_ordered_trace (ts : list transition) : bool :=
  forallb (fun tr => nondecreasing (tr_time <$> lifecycle (tr_pid tr) ts)) ts.

(** ** Sample traces *)

(** One process that records NEW -> READY twice. *)
Definition repeated_arrival_trace : list transition :=
  [ Transition 0 "P" "NEW" "READY";
    Transition 5 "P" "NEW" "READY" ].

(** One process dispatched once from READY. *)
Definition single_dispatch_trace : list transition :=
  [ Transition 0 "P" "NEW" "READY";
    Transition 2 "P" "READY" "RUNNING" ].

(** The same process dispatched again without going back to READY. *)
Definition double_dispatch_trace : list transition :=
  single_dispatch_trace ++ [ Transition 5 "P" "WAITING" "RUNNING" ].

(** The multi-wait scenario. *)
Definition multi_wait_trace : list transition :=
  [ Transition 0 "P" "NEW" "READY";
    Transition 2 "P" "READY" "RUNNING";
    Transition 4 "P" "RUNNING" "WAITING";
    Transition 6 "P" "WAITING" "READY";
    Transition 10 "P" "READY" "RUNNING";
    Transition 12 "P" "RUNNING" "TERMINATED" ].

(** Two processes with interleaved time stamps. *)
Definition interleaved_trace : list transition :=
  [ Transition 0 "1" "NEW" "READY";
    Transition 1 "2" "NEW" "READY";
    Transition 3 "1" "READY" "RUNNING";
    Transition 7 "1" "RUNNING" "TERMINATED";
    Transition 7 "2" "READY" "RUNNING";
    Transition 9 "2" "RUNNING" "TERMINATED" ].

(** Process 1 completes; process 2 arrives and never completes. *)
Definition unfinished_trace : list transition :=
  [ Transition 0 "1" "NEW" "READY";
    Transition 0 "1" "READY" "RUNNING";
    Transition 1 "2" "NEW" "READY";
    Transition 5 "1" "RUNNING" "TERMINATED" ].

(** One process whose dispatch is stamped later than its completion. *)
Definition out_of_order_trace : list transition :=
  [ Transition 0 "P" "NEW" "READY";
    Transition 10 "P" "READY" "RUNNING";
    Transition 5 "P" "RUNNING" "TERMINATED" ].

(** One process that completes at a time beyond the largest double. *)
Definition overflow_trace : list transition :=
  [ Transition 0 "P" "NEW" "READY";
    Transition (10 ^ 400) "P" "RUNNING" "TERMINATED" ].

(** A completion at that time of a process that never arrived. *)
Definition late_completion_trace : list transition :=
  [ Transition (10 ^ 400) "P" "RUNNING" "TERMINATED" ].

(** One process that completes at time 3. *)
Definition one_in_three_trace : list transition :=
  [ Transition 0 "P" "NEW" "READY";
    Transition 0 "P" "READY" "RUNNING";
    Transition 3 "P" "RUNNING" "TERMINATED" ].

(** ** Times recorded for a process *)

(** The times at which process [p] enters RUNNING, in the order of the
    trace. *)
Definition dispatch_times (p : string) (ts : list transition) : list Z :=
  tr_time <$> filter (fun tr => tr_pid tr = p /\ tr_new tr = "RUNNING") ts.

(** The times at which process [p] enters TERMINATED. *)
Definition completion_times (p : string) (ts : list transition) : list Z :=
  tr_time <$> filter (fun tr => tr_pid tr = p /\ tr_new tr = "TERMINATED") ts.

(** The times at which process [p] enters READY from NEW or from WAITING. *)
Definition ready_times (p : string) (ts : list transition) : list Z :=
  tr_time <$>
    filter (fun tr => tr_pid tr = p /\ tr_new tr = "READY"
                      /\ (tr_old tr = "NEW" \/ tr_old tr = "WAITING")) ts.

(** The process ids of the transitions that satisfy [c]. *)
Definition pids_where (c : transition -> bool) (ts : list transition)
  : gset string :=
  list_to_set (tr_pid <$> filter (fun tr => c tr = true) ts).

Definition is_arrival (tr : transition) : bool :=
  String.eqb (tr_new tr) "READY" && String.eqb (tr_old tr) "NEW".

Definition is_completion (tr : transition) : bool :=
  String.eqb (tr_new tr) "TERMINATED".

(** ** Transitions that the loop body acts on *)

(** A transition for which one of the four [if] tests of the loop body
    holds. *)
Definition relevant (tr : transition) : bool :=
  String.eqb (tr_new tr) "RUNNING"
  || String.eqb (tr_new tr) "TERMINATED"
  || String.eqb (tr_new tr) "READY"
     && (String.eqb (tr_old tr) "NEW" || String.eqb (tr_old tr) "WAITING").

#[global] Instance transition_eq_dec : EqDecision transition.
Proof. solve_decision. Defined.

(** Every process has the same transitions, in the same order, in both
    traces. *)
Definition same_lifecycles (ts1 ts2 : list transition) : bool :=
  forallb (fun tr => bool_decide (lifecycle (tr_pid tr) ts1
                                  = lifecycle (tr_pid tr) ts2))
          (ts1 ++ ts2).

(** What the dictionaries of one process hold together: an arrival time
    comes with a last ready time, a waiting time with a first run time and
    a last ready time. *)
Definition marks_consistent (v : process_view) : Prop :=
  (is_Some (v_arrival v) -> is_Some (v_last_ready v)) /\
  (is_Some (v_wait v) ->
   is_Some (v_first_run v) /\ is_Some (v_last_ready v)).

(** [interleaved_trace] with the transitions grouped by process. *)
Definition regrouped_trace : list transition :=
  lifecycle "1" interleaved_trace ++ lifecycle "2" interleaved_trace.

(** A process that is preempted (RUNNING -> READY) and dispatched again,
    among transitions that the loop body passes over. *)
Definition preempted_trace : list transition :=
  [ Transition 0 "P" "NEW" "READY";
    Transition 1 "P" "READY" "RUNNING";
    Transition 3 "P" "RUNNING" "READY";
    Transition 6 "P" "READY" "RUNNING";
    Transition 7 "P" "RUNNING" "WAITING";
    Transition 8 "P" "WAITING" "READY";
    Transition 8 "P" "READY" "RUNNING";
    Transition 9 "P" "RUNNING" "TERMINATED" ].

(** The transitions of a process that arrives, is dispatched next, and
    after that neither is dispatched nor arrives again. *)
Definition dispatched_once (l : list transition) : bool :=
  match l with
  | a :: b :: rest =>
      is_arrival a && String.eqb (tr_new b) "RUNNING"
      && forallb (fun tr => negb (String.eqb (tr_new tr) "RUNNING")
                            && negb (is_arrival tr)) rest
  | _ => false
  end.

(** ** The command line *)

(** A line that the loop of [parse_execution_file] takes as a table row:
    stripped, it starts with a bar. *)
Definition table_row (line : string) : bool :=
  startswith (strip (rstrip_newline line)) "|".

(** What [main] writes to the standard output: its two messages, and the
    report of [print_metrics], whose text (floats formatted to 4 and 2
    decimal places) is not part of the embedding. *)
Inductive output : Type :=
  | UsageMessage
  | NoTransitionsMessage
  | MetricsReport (name : string) (m : metrics).

Definition print_metrics (name : string) (m : metrics) : list output :=
  [MetricsReport name m].

Section Main.

(** [sys.get_int_max_str_digits()], and what [open(file_path, "r")]
    followed by [f.readlines()] does at a path: the lines of the file, or
    the exception raised on the way, as for a path that names no file. *)
Variable int_max_str_digits : nat.
Variable readlines : string -> result (list string).

(** [main], given [sys.argv]; an exception of [parse_execution_file] or
    of [compute_metrics] is not caught and ends the program before
    anything is written. *)
Definition main (argv : list string) : result (list output) :=
  match argv with
  | [_; file_path] =>
      lines ← readlines file_path;
      let transitions := parse_execution_file int_max_str_digits lines in
      match transitions with
      | [] => Ok [NoTransitionsMessage]
      | _ :: _ =>
          metrics ← compute_metrics transitions;
          Ok (print_metrics file_path metrics)
      end
  | _ => Ok [UsageMessage]
  end.

End Main.

(** The lines of a file in which process 7 arrives at 0 and completes at
    [time]. *)
Definition completion_file (time : string) : list string :=
  [ "| 0 | 7 | NEW | READY |" +:+ newline;
    "| " +:+ time +:+ " | 7 | RUNNING | TERMINATED |" +:+ newline ].

(** [n] digits 0. *)
Fixpoint zeros (n : nat) : string :=
  match n with
  | O => EmptyString
  | S k => String "0" (zeros k)
  end.

(** A file system with four files: a table none of whose rows enters
    TERMINATED, an empty file, a table with a completion at time 4, and
    one with a completion at time [10 ^ 400]; [open] fails on every other
    path. *)
Definition sample_files (path : string) : result (list string) :=
  if String.eqb path "execution.txt" then Ok sample_file
  else if String.eqb path "empty.txt" then Ok []
  else if String.eqb path "done.txt" then Ok (completion_file "4")
  else if String.eqb path "late.txt"
       then Ok (completion_file ("1" +:+ zeros 400))
  else Raise OSError.

(** ** Facts about the scan *)

Lemma scan_from_cons st tr ts :
  scan_from st (tr :: ts) = scan_from (step st tr) ts.
Proof. reflexivity. Qed.

Lemma scan_from_app st ts1 ts2 :
  scan_from st (ts1 ++ ts2) = scan_from (scan_from st ts1) ts2.
Proof. unfold scan_from. apply fold_left_app. Qed.

Ltac unfold_rules :=
  unfold on_ready_again, on_terminated, on_running, on_arrival,
         view_ready_again, view_terminated, view_running, view_arrival, view.

Ltac rule_cases :=
  unfold_rules;
  repeat match goal with
         | |- context [if ?b then _ else _] => destruct b
         end;
  simpl.

(** Each rule of the loop body, seen from the process of the transition
    and from another process. *)
Lemma view_on_arrival_same st tr :
  view (tr_pid tr) (on_arrival tr st) = view_arrival tr (view (tr_pid tr) st).
Proof. rule_cases; rewrite ?lookup_insert_eq; reflexivity. Qed.

Lemma view_on_arrival_other p st tr :
  tr_pid tr <> p -> view p (on_arrival tr st) = view p st.
Proof. intros Hne. rule_cases; rewrite ?lookup_insert_ne by assumption; reflexivity. Qed.

Lemma view_on_running_same st tr :
  view (tr_pid tr) (on_running tr st) = view_running tr (view (tr_pid tr) st).
Proof.
  unfold_rules. destruct (String.eqb (tr_new tr) "RUNNING"); [|reflexivity].
  simpl.
  destruct (first_run st !! tr_pid tr) eqn:Hf,
           (last_ready_time st !! tr_pid tr) eqn:Hl;
    rewrite ?lookup_insert_eq, ?Hf; reflexivity.
Qed.

Lemma view_on_running_other p st tr :
  tr_pid tr <> p -> view p (on_running tr st) = view p st.
Proof.
  intros Hne. unfold_rules.
  destruct (String.eqb (tr_new tr) "RUNNING"); [|reflexivity]. simpl.
  destruct (first_run st !! tr_pid tr), (last_ready_time st !! tr_pid tr);
    rewrite ?lookup_insert_ne by assumption; reflexivity.
Qed.

Lemma view_on_terminated_same st tr :
  view (tr_pid tr) (on_terminated tr st)
  = view_terminated tr (view (tr_pid tr) st).
Proof. rule_cases; rewrite ?lookup_insert_eq; reflexivity. Qed.

Lemma view_on_terminated_other p st tr :
  tr_pid tr <> p -> view p (on_terminated tr st) = view p st.
Proof. intros Hne. rule_cases; rewrite ?lookup_insert_ne by assumption; reflexivity. Qed.

Lemma view_on_ready_again_same st tr :
  view (tr_pid tr) (on_ready_again tr st)
  = view_ready_again tr (view (tr_pid tr) st).
Proof. rule_cases; rewrite ?lookup_insert_eq; reflexivity. Qed.

Lemma view_on_ready_again_other p st tr :
  tr_pid tr <> p -> view p (on_ready_again tr st) = view p st.
Proof. intros Hne. rule_cases; rewrite ?lookup_insert_ne by assumption; reflexivity. Qed.

(** A transition of another process leaves the view of [p] as it is. *)
Lemma view_step_other p st tr :
  tr_pid tr <> p -> view p (step st tr) = view p st.
Proof.
  intros Hne. unfold step.
  rewrite view_on_ready_again_other, view_on_terminated_other,
    view_on_running_other, view_on_arrival_other by assumption.
  reflexivity.
Qed.

(** A transition of [p] acts on the view of [p] alone. *)
Lemma view_step_same p st tr :
  tr_pid tr = p -> view p (step st tr) = view_step (view p st) tr.
Proof.
  intros <-. unfold step, view_step.
  rewrite view_on_ready_again_same, view_on_terminated_same,
    view_on_running_same, view_on_arrival_same.
  reflexivity.
Qed.

Lemma view_scan_from p ts : forall st,
  view p (scan_from st ts) = fold_left view_step (lifecycle p ts) (view p st).
Proof.
  induction ts as [|tr ts IH]; intros st; [reflexivity|].
  rewrite scan_from_cons, IH. unfold lifecycle.
  destruct (decide (tr_pid tr = p)) as [Heq|Hne].
  - rewrite filter_cons_True by assumption. simpl.
    now rewrite view_step_same.
  - rewrite filter_cons_False by assumption.
    now rewrite view_step_other.
Qed.

Lemma view_scan p ts :
  view p (scan ts) = fold_left view_step (lifecycle p ts) empty_view.
Proof. unfold scan. now rewrite view_scan_from. Qed.

Lemma lifecycle_idem p ts : lifecycle p (lifecycle p ts) = lifecycle p ts.
Proof.
  unfold lifecycle. induction ts as [|tr ts IH]; [reflexivity|].
  destruct (decide (tr_pid tr = p)) as [Heq|Hne].
  - rewrite !filter_cons_True by assumption. now rewrite IH.
  - now rewrite filter_cons_False by assumption.
Qed.

Lemma scan_snoc ts tr : scan (ts ++ [tr]) = step (scan ts) tr.
Proof. unfold scan. now rewrite scan_from_app. Qed.

Lemma arrivals_step st tr :
  arrivals (step st tr) =
  if String.eqb (tr_new tr) "READY" && String.eqb (tr_old tr) "NEW"
  then <[tr_pid tr := tr_time tr]> (arrivals st)
  else arrivals st.
Proof. unfold step. rule_cases; reflexivity. Qed.

Lemma finish_time_step st tr :
  finish_time (step st tr) =
  if String.eqb (tr_new tr) "TERMINATED"
  then <[tr_pid tr := tr_time tr]> (finish_time st)
  else finish_time st.
Proof. unfold step. rule_cases; reflexivity. Qed.

Lemma last_ready_time_step st tr :
  last_ready_time (step st tr) =
  if String.eqb (tr_new tr) "READY"
     && (String.eqb (tr_old tr) "NEW" || String.eqb (tr_old tr) "WAITING")
  then <[tr_pid tr := tr_time tr]> (last_ready_time st)
  else last_ready_time st.
Proof.
  unfold step, on_ready_again, on_terminated, on_running, on_arrival.
  destruct (String.eqb (tr_new tr) "READY") eqn:Hn; simpl.
  - apply String.eqb_eq in Hn. rewrite Hn. simpl.
    destruct (String.eqb (tr_old tr) "NEW") eqn:Ho; simpl.
    + apply String.eqb_eq in Ho. rewrite Ho. reflexivity.
    + destruct (String.eqb (tr_old tr) "WAITING"); reflexivity.
  - destruct (String.eqb (tr_new tr) "RUNNING"),
             (String.eqb (tr_new tr) "TERMINATED"); reflexivity.
Qed.

(** ** Arrival times *)

Lemma arrival_times_snoc p ts tr :
  arrival_times p (ts ++ [tr]) =
  arrival_times p ts ++
  (if decide (tr_pid tr = p /\ tr_new tr = "READY" /\ tr_old tr = "NEW")
   then [tr_time tr] else []).
Proof.
  unfold arrival_times. rewrite filter_app, fmap_app. f_equal.
  case_decide.
  - now rewrite filter_cons_True by assumption.
  - now rewrite filter_cons_False by assumption.
Qed.

(** C1 (as the code behaves): for every trace and every process id, the
    arrival time held by [compute_metrics] after its scan is the time of the
    LAST NEW -> READY transition of that process: each such transition
    overwrites the one before, and a process without one has no arrival
    time. *)
Theorem arrival_is_last_new_ready (ts : list transition) (p : string) :
  arrivals (scan ts) !! p = last_arrival p ts.
Proof.
  unfold last_arrival.
  induction ts as [|tr ts IH] using rev_ind; [reflexivity|].
  rewrite scan_snoc, arrivals_step, arrival_times_snoc.
  case_decide as Hd.
  - destruct Hd as (Hp & Hn & Ho). rewrite Hn, Ho, <- Hp. simpl.
    rewrite lookup_insert_eq. now rewrite last_snoc.
  - rewrite app_nil_r, <- IH.
    destruct (String.eqb (tr_new tr) "READY") eqn:Hn;
      destruct (String.eqb (tr_old tr) "NEW") eqn:Ho; simpl; try reflexivity.
    apply String.eqb_eq in Hn, Ho.
    rewrite lookup_insert_ne; [reflexivity|]. intros Hp. apply Hd. auto.
Qed.

(** C1 fails as stated: in [repeated_arrival_trace] process P records
    NEW -> READY twice, at 0 and then at 5, and the arrival time kept is 5,
    not the time 0 of the first one. *)
Lemma arrival_first_wins_fails :
  arrival_times "P" repeated_arrival_trace = [0; 5] /\
  first_arrival "P" repeated_arrival_trace = Some 0 /\
  arrivals (scan repeated_arrival_trace) !! "P" = Some 5 /\
  arrivals (scan repeated_arrival_trace) !! "P"
    <> first_arrival "P" repeated_arrival_trace.
Proof. vm_compute. repeat split; congruence. Qed.

(** ** Waiting intervals *)

(** A dispatch leaves [last_ready_time] as it was: nothing in the
    [RUNNING] branch removes or changes the entry it has just used. *)
Lemma running_keeps_last_ready st tr :
  tr_new tr = "RUNNING" -> last_ready_time (step st tr) = last_ready_time st.
Proof. intros Hn. rewrite last_ready_time_step, Hn. reflexivity. Qed.

(** C2 (the code at the failing input): P becomes READY at 0 and is
    dispatched at 2, which adds the interval 2 to its waiting time; it is
    dispatched again at 5 without a transition into READY in between, and
    the scan adds 5 - 0 on top, giving 7 where the claim has 2. *)
Theorem second_dispatch_adds_interval_again :
  wait_time (scan single_dispatch_trace) !! "P" = Some 2 /\
  last_ready_time (scan single_dispatch_trace) !! "P" = Some 0 /\
  wait_time (scan double_dispatch_trace) !! "P" = Some 7.
Proof. vm_compute. repeat split; reflexivity. Qed.

(** ** The multi-wait scenario *)

(** C7: on the trace NEW->READY(0), READY->RUNNING(2), RUNNING->WAITING(4),
    WAITING->READY(6), READY->RUNNING(10), RUNNING->TERMINATED(12) of one
    process P, the accumulated wait of P is 6, its turnaround is 12 and its
    response is 2. *)
Theorem multi_wait_scenario :
  wait_time (scan multi_wait_trace) !! "P" = Some 6 /\
  turnaround (scan multi_wait_trace) !! "P" = Some 12 /\
  response (scan multi_wait_trace) !! "P" = Some 2.
Proof. vm_compute. repeat split; reflexivity. Qed.

(** ** Independence of the processes *)

(** C9: for every trace and every process id [p], what the scan records for
    [p] (arrival time, first run time, finish time, accumulated wait and
    last ready time) is what it records when run on the transitions of [p]
    alone; the transitions of other processes do not show in it. *)
Theorem timelines_independent (ts : list transition) (p : string) :
  view p (scan ts) = view p (scan (lifecycle p ts)).
Proof. rewrite !view_scan. now rewrite lifecycle_idem. Qed.

(** ** Aggregation lemmas *)

Lemma dict_max_spec (d : gmap string Z) :
  match dict_max d with
  | Ok a => is_latest d a
  | Raise e => d = ∅ /\ e = ValueError
  end.
Proof.
  unfold dict_max.
  set (f := fun (_ : string) (v : Z) (acc : option Z) =>
              match acc with
              | None => Some v
              | Some a => Some (Z.max a v)
              end).
  assert (H : match map_fold f None d with
              | Some a => is_latest d a
              | None => d = ∅
              end).
  { apply (map_fold_weak_ind
             (fun acc m => match acc with
                           | Some a => is_latest m a
                           | None => m = ∅
                           end)); [reflexivity|].
    intros k v m acc Hk IH. unfold f. destruct acc as [a|].
    - destruct IH as [[k' Hk'] Hle]. split.
      + destruct (Z.max_spec a v) as [[_ ->]|[_ ->]].
        * exists k. apply lookup_insert_eq.
        * exists k'. rewrite lookup_insert_ne; [assumption|congruence].
      + intros j w. rewrite lookup_insert. case_decide.
        * intros [= <-]. lia.
        * intros Hj. specialize (Hle j w Hj). lia.
    - subst m. split.
      + exists k. apply lookup_insert_eq.
      + intros j w. rewrite lookup_insert. case_decide.
        * intros [= <-]. lia.
        * rewrite lookup_empty. discriminate. }
  destruct (map_fold f None d); auto.
Qed.

Lemma dict_max_nonempty (d : gmap string Z) :
  d <> ∅ -> exists a, dict_max d = Ok a /\ is_latest d a.
Proof.
  intros Hd. pose proof (dict_max_spec d) as H.
  destruct (dict_max d) as [a|e].
  - eauto.
  - destruct H. contradiction.
Qed.

Lemma is_latest_unique d a b : is_latest d a -> is_latest d b -> a = b.
Proof.
  intros [[ka Ha] Hla] [[kb Hb] Hlb].
  specialize (Hla _ _ Hb). specialize (Hlb _ _ Ha). lia.
Qed.

Lemma dict_sum_empty : dict_sum ∅ = 0.
Proof. unfold dict_sum. apply map_fold_empty. Qed.

Lemma dict_sum_insert (d : gmap string Z) k v :
  d !! k = None -> dict_sum (<[k:=v]> d) = v + dict_sum d.
Proof.
  intros Hk. unfold dict_sum.
  apply (map_fold_insert_L (fun (_ : string) (v acc : Z) => v + acc));
    [intros; lia | assumption].
Qed.

Lemma process_count_pos st : 1 <= process_count st.
Proof.
  unfold process_count. case_bool_decide as He; [lia|].
  apply map_size_non_empty_iff in He. lia.
Qed.

Lemma process_count_floor st :
  process_count st = Z.max 1 (Z.of_nat (size (arrivals st))).
Proof.
  unfold process_count. case_bool_decide as He.
  - rewrite He, map_size_empty. reflexivity.
  - apply map_size_non_empty_iff in He. lia.
Qed.

(** ** Doubles *)

Lemma round_half_even_cases num den :
  0 < den ->
  exists d r, num = den * d + r /\ 0 <= r < den /\
    (round_half_even num den = d /\ 2 * r <= den \/
     round_half_even num den = d + 1 /\ den <= 2 * r) /\
    (2 * r = den -> Z.even (round_half_even num den) = true).
Proof.
  intros Hden. exists (num / den), (num mod den).
  pose proof (Z.div_mod num den) as Hdm.
  pose proof (Z.mod_pos_bound num den Hden) as Hr.
  split; [lia|]. split; [lia|]. unfold round_half_even.
  destruct (Z.ltb_spec (2 * (num mod den)) den).
  - split; [left; lia|lia].
  - destruct (Z.ltb_spec den (2 * (num mod den))).
    + split; [right; lia|lia].
    + destruct (Z.even (num / den)) eqn:He.
      * split; [left; lia|auto].
      * split; [right; lia|]. intros _.
        rewrite Z.even_add, He. reflexivity.
Qed.

Lemma round_half_even_lower num den m :
  0 < den -> den * m <= num -> m <= round_half_even num den.
Proof.
  intros Hden H.
  destruct (round_half_even_cases num den Hden)
    as (d & r & Hn & Hr & [[-> _]|[-> _]] & _); nia.
Qed.

Lemma round_half_even_upper num den m :
  0 < den -> num <= den * m -> round_half_even num den <= m.
Proof.
  intros Hden H.
  destruct (round_half_even_cases num den Hden)
    as (d & r & Hn & Hr & [[-> _]|[-> ?]] & _); nia.
Qed.

Lemma round_half_even_mono num1 num2 den :
  0 < den -> num1 <= num2 ->
  round_half_even num1 den <= round_half_even num2 den.
Proof.
  intros Hden H.
  destruct (round_half_even_cases num1 den Hden)
    as (d1 & r1 & Hn1 & Hr1 & Hc1 & He1).
  destruct (round_half_even_cases num2 den Hden)
    as (d2 & r2 & Hn2 & Hr2 & Hc2 & He2).
  assert (Hd : d1 <= d2) by nia.
  destruct (Z.eq_dec d1 d2) as [<-|Hne].
  - assert (r1 <= r2) by lia.
    destruct Hc1 as [[E1 ?]|[E1 ?]], Hc2 as [[E2 ?]|[E2 ?]]; try lia.
    assert (2 * r1 = den) by lia. assert (2 * r2 = den) by lia.
    specialize (He1 ltac:(assumption)). specialize (He2 ltac:(assumption)).
    rewrite E1 in He1. rewrite E2 in He2.
    rewrite Z.even_add in He1. rewrite He2 in He1. discriminate.
  - destruct Hc1 as [[-> ?]|[-> ?]], Hc2 as [[-> ?]|[-> ?]]; lia.
Qed.

Lemma double_scale_pos : 0 < double_scale.
Proof. unfold double_scale. apply Z.pow_pos_nonneg; lia. Qed.

Lemma exponent_nonneg L : 0 <= Z.max 0 (Z.log2 L - 52).
Proof. lia. Qed.

(** With [j] the exponent chosen for [L], [L] is below [2 ^ (j + 53)]. *)
Lemma below_next_binade L :
  0 <= L -> L < 2 ^ (Z.max 0 (Z.log2 L - 52) + 53).
Proof.
  intros HL. destruct (Z.eq_dec L 0) as [->|Hne].
  - apply Z.pow_pos_nonneg; lia.
  - assert (H : 0 < L) by lia.
    destruct (Z.log2_spec L H) as [_ Hup].
    eapply Z.lt_le_trans; [exact Hup|].
    apply Z.pow_le_mono_r; lia.
Qed.

(** When the exponent [j] is positive, [L] is at least [2 ^ (j + 52)]. *)
Lemma above_binade L :
  0 < Z.max 0 (Z.log2 L - 52) -> 2 ^ (Z.max 0 (Z.log2 L - 52) + 52) <= L.
Proof.
  intros Hj. assert (Hlog : 53 <= Z.log2 L) by lia.
  assert (HL : 0 < L).
  { destruct (Z.lt_ge_cases 0 L) as [?|Hle]; [assumption|].
    rewrite (Z.log2_nonpos L Hle) in Hlog. lia. }
  destruct (Z.log2_spec L HL) as [Hlow _].
  replace (Z.max 0 (Z.log2 L - 52) + 52) with (Z.log2 L) by lia.
  exact Hlow.
Qed.

Lemma nearest_units_nonneg a b : 0 <= a -> 0 < b -> 0 <= nearest_units a b.
Proof.
  intros Ha Hb. unfold nearest_units, ulp_exponent.
  set (j := Z.max 0 (Z.log2 (a * double_scale / b) - 52)).
  assert (Hj : 0 <= j) by (unfold j; lia).
  assert (Hp : 0 < 2 ^ j) by (apply Z.pow_pos_nonneg; lia).
  apply Z.mul_nonneg_nonneg; [|lia].
  apply round_half_even_lower; [nia|].
  pose proof double_scale_pos. nia.
Qed.

Lemma nearest_units_zero b : 0 < b -> nearest_units 0 b = 0.
Proof.
  intros Hb. unfold nearest_units, ulp_exponent.
  change (0 * double_scale) with 0. rewrite Z.div_0_l by lia.
  change (Z.max 0 (Z.log2 0 - 52)) with 0. change (2 ^ 0) with 1.
  rewrite !Z.mul_1_r.
  pose proof (round_half_even_lower 0 b 0 Hb).
  pose proof (round_half_even_upper 0 b 0 Hb). lia.
Qed.

Lemma nearest_units_mono a1 a2 b :
  0 < b -> 0 <= a1 -> a1 <= a2 -> nearest_units a1 b <= nearest_units a2 b.
Proof.
  intros Hb Ha1 Ha. unfold nearest_units, ulp_exponent.
  pose proof double_scale_pos as HS.
  set (A1 := a1 * double_scale). set (A2 := a2 * double_scale).
  assert (HA1 : 0 <= A1) by (unfold A1; nia).
  assert (HA : A1 <= A2) by (unfold A1, A2; nia).
  set (L1 := A1 / b). set (L2 := A2 / b).
  assert (HL1 : 0 <= L1) by (apply Z.div_pos; lia).
  assert (HL : L1 <= L2) by (apply Z.div_le_mono; lia).
  set (j1 := Z.max 0 (Z.log2 L1 - 52)). set (j2 := Z.max 0 (Z.log2 L2 - 52)).
  assert (Hj1 : 0 <= j1) by (unfold j1; lia).
  assert (Hj : j1 <= j2).
  { pose proof (Z.log2_le_mono L1 L2 HL). unfold j1, j2. lia. }
  assert (Hp1 : 0 < 2 ^ j1) by (apply Z.pow_pos_nonneg; lia).
  assert (Hp2 : 0 < 2 ^ j2) by (apply Z.pow_pos_nonneg; lia).
  destruct (Z.eq_dec j1 j2) as [Heq|Hne].
  - rewrite <- Heq. apply Z.mul_le_mono_nonneg_r; [lia|].
    apply round_half_even_mono; [nia|assumption].
  - assert (Hlt : j1 < j2) by lia.
    assert (H1 : round_half_even A1 (b * 2 ^ j1) * 2 ^ j1 <= 2 ^ (j1 + 53)).
    { rewrite Z.pow_add_r by lia. rewrite (Z.mul_comm (2 ^ j1)).
      apply Z.mul_le_mono_nonneg_r; [lia|].
      apply round_half_even_upper; [nia|].
      pose proof (below_next_binade L1 HL1) as Hb1. fold j1 in Hb1.
      rewrite Z.pow_add_r in Hb1 by lia.
      assert (A1 < b * (2 ^ j1 * 2 ^ 53)).
      { pose proof (Z.div_mod A1 b) as Hdm.
        pose proof (Z.mod_pos_bound A1 b Hb) as Hr. fold L1 in Hdm. nia. }
      nia. }
    assert (H2 : 2 ^ (j2 + 52) <= round_half_even A2 (b * 2 ^ j2) * 2 ^ j2).
    { assert (Hj2 : 0 < j2) by lia.
      pose proof (above_binade L2 Hj2) as Hb2. fold j2 in Hb2.
      rewrite Z.pow_add_r in Hb2 |- * by lia. rewrite (Z.mul_comm (2 ^ j2)).
      apply Z.mul_le_mono_nonneg_r; [lia|].
      apply round_half_even_lower; [nia|].
      pose proof (Z.mul_div_le A2 b Hb) as Hm. fold L2 in Hm. nia. }
    assert (Hpow : 2 ^ (j1 + 53) <= 2 ^ (j2 + 52))
      by (apply Z.pow_le_mono_r; lia).
    lia.
Qed.

(** A quotient of at least one unit does not round to zero. *)
Lemma nearest_units_pos a b :
  0 < b -> b <= a * double_scale -> 0 < nearest_units a b.
Proof.
  intros Hb Ha. unfold nearest_units, ulp_exponent.
  set (A := a * double_scale) in *.
  set (j := Z.max 0 (Z.log2 (A / b) - 52)).
  assert (Hj : 0 <= j) by (unfold j; lia).
  assert (Hp : 0 < 2 ^ j) by (apply Z.pow_pos_nonneg; lia).
  apply Z.mul_pos_pos; [|assumption].
  destruct (Z.eq_dec j 0) as [Hz|Hnz].
  - rewrite Hz. simpl. apply Z.lt_le_trans with 1; [lia|].
    apply round_half_even_lower; lia.
  - assert (Hj' : 0 < j) by lia.
    pose proof (above_binade (A / b) Hj') as Hab. fold j in Hab.
    rewrite Z.pow_add_r in Hab by lia.
    apply Z.lt_le_trans with (2 ^ 52); [reflexivity|].
    apply round_half_even_lower; [nia|].
    pose proof (Z.mul_div_le A b Hb). nia.
Qed.

Lemma round_half_even_half num den :
  0 < den -> 2 * Z.abs (round_half_even num den * den - num) <= den.
Proof.
  intros Hden.
  destruct (round_half_even_cases num den Hden)
    as (d & r & Hn & Hr & [[-> ?]|[-> ?]] & _); nia.
Qed.

Lemma round_half_even_nearest num den k :
  0 < den ->
  Z.abs (round_half_even num den * den - num) <= Z.abs (k * den - num).
Proof.
  intros Hden. pose proof (round_half_even_half num den Hden) as Hh.
  set (R := round_half_even num den) in *.
  assert (Hk : k <= R - 1 \/ k = R \/ R + 1 <= k) by lia.
  destruct Hk as [Hk|[->|Hk]]; [|lia|].
  - assert (k * den <= R * den - den) by nia. lia.
  - assert (R * den + den <= k * den) by nia. lia.
Qed.

Lemma nearest_units_representable a b :
  0 <= a -> 0 < b -> representable (nearest_units a b).
Proof.
  intros Ha Hb. unfold nearest_units, ulp_exponent.
  pose proof double_scale_pos as HS.
  set (A := a * double_scale).
  assert (HA : 0 <= A) by (unfold A; nia).
  set (L := A / b). assert (HL : 0 <= L) by (apply Z.div_pos; lia).
  set (j := Z.max 0 (Z.log2 L - 52)).
  assert (Hj : 0 <= j) by (unfold j; lia).
  assert (Hp : 0 < 2 ^ j) by (apply Z.pow_pos_nonneg; lia).
  set (R := round_half_even A (b * 2 ^ j)).
  assert (Hlow : 0 <= R) by (apply round_half_even_lower; nia).
  assert (Hup : R <= 2 ^ 53).
  { apply round_half_even_upper; [nia|].
    pose proof (below_next_binade L HL) as Hb1. fold j in Hb1.
    rewrite Z.pow_add_r in Hb1 by lia.
    pose proof (Z.div_mod A b) as Hdm.
    pose proof (Z.mod_pos_bound A b Hb) as Hr. fold L in Hdm. nia. }
  destruct (Z.eq_dec R (2 ^ 53)) as [He|Hne].
  - exists (2 ^ 52), (j + 1). split; [split; [lia|reflexivity]|].
    split; [lia|]. rewrite He, Z.pow_add_r by lia.
    change (2 ^ 53) with (2 ^ 52 * 2). change (2 ^ 1) with 2. ring.
  - exists R, j. split; [lia|]. split; [lia|reflexivity].
Qed.

(** No double is nearer to [a / b] than [nearest_units a b]. *)
Lemma nearest_units_nearest a b u :
  0 <= a -> 0 < b -> representable u ->
  Z.abs (nearest_units a b * b - a * double_scale)
  <= Z.abs (u * b - a * double_scale).
Proof.
  intros Ha Hb (m & i & Hm & Hi & ->). unfold nearest_units, ulp_exponent.
  pose proof double_scale_pos as HS.
  set (A := a * double_scale).
  assert (HA : 0 <= A) by (unfold A; nia).
  set (L := A / b). assert (HL : 0 <= L) by (apply Z.div_pos; lia).
  set (j := Z.max 0 (Z.log2 L - 52)).
  assert (Hj : 0 <= j) by (unfold j; lia).
  assert (Hp : 0 < 2 ^ j) by (apply Z.pow_pos_nonneg; lia).
  assert (HD : 0 < b * 2 ^ j) by nia.
  assert (Hmult : forall k,
    Z.abs (round_half_even A (b * 2 ^ j) * 2 ^ j * b - A)
    <= Z.abs (k * 2 ^ j * b - A)).
  { intros k. pose proof (round_half_even_nearest A (b * 2 ^ j) k HD) as H.
    replace (round_half_even A (b * 2 ^ j) * 2 ^ j * b)
      with (round_half_even A (b * 2 ^ j) * (b * 2 ^ j)) by ring.
    replace (k * 2 ^ j * b) with (k * (b * 2 ^ j)) by ring. exact H. }
  destruct (Z.le_gt_cases j i) as [Hji|Hij].
  - replace (m * 2 ^ i) with (m * 2 ^ (i - j) * 2 ^ j); [apply Hmult|].
    rewrite <- Z.mul_assoc, <- Z.pow_add_r by lia. f_equal. f_equal. lia.
  - assert (Hj' : 0 < j) by lia.
    pose proof (above_binade L Hj') as Hab. fold j in Hab.
    pose proof (Z.mul_div_le A b Hb) as Hdiv. fold L in Hdiv.
    assert (Hpi : 0 < 2 ^ i) by (apply Z.pow_pos_nonneg; lia).
    assert (Hu : m * 2 ^ i <= 2 ^ (j + 52)).
    { apply Z.le_trans with (2 ^ 53 * 2 ^ i); [nia|].
      rewrite <- Z.pow_add_r by lia. apply Z.pow_le_mono_r; lia. }
    specialize (Hmult (2 ^ 52)).
    replace (2 ^ 52 * 2 ^ j) with (2 ^ (j + 52)) in Hmult
      by (rewrite Z.pow_add_r by lia; ring).
    assert (2 ^ (j + 52) * b <= A) by nia.
    assert (m * 2 ^ i * b <= 2 ^ (j + 52) * b) by nia.
    lia.
Qed.

Lemma signed_units_mono a1 a2 b :
  0 < b -> a1 <= a2 -> signed_units a1 b <= signed_units a2 b.
Proof.
  intros Hb Ha. unfold signed_units.
  rewrite (Z.sgn_pos b), (Z.abs_eq b), !Z.mul_1_r by lia.
  pose proof (nearest_units_nonneg (Z.abs a1) b (Z.abs_nonneg a1) Hb) as H1.
  pose proof (nearest_units_nonneg (Z.abs a2) b (Z.abs_nonneg a2) Hb) as H2.
  destruct (Z.sgn_spec a1) as [[? ->]|[[? ->]|[? ->]]],
           (Z.sgn_spec a2) as [[? ->]|[[? ->]|[? ->]]]; try lia.
  - pose proof (nearest_units_mono (Z.abs a1) (Z.abs a2) b Hb). lia.
  - pose proof (nearest_units_mono (Z.abs a2) (Z.abs a1) b Hb). lia.
Qed.

Lemma ratio_le a b n : a <= b -> 1 <= n -> (ratio a n <= ratio b n)%Qc.
Proof.
  intros Hab Hn. unfold ratio, Qcle. simpl. rewrite !Qred_correct.
  unfold Qdiv. apply Qmult_le_compat_r.
  - now rewrite <- Zle_Qle.
  - apply Qinv_le_0_compat. change 0%Q with (inject_Z 0).
    rewrite <- Zle_Qle. lia.
Qed.

Lemma ratio_nonneg a n : 0 <= a -> 1 <= n -> (0 <= ratio a n)%Qc.
Proof.
  intros Ha Hn. unfold ratio, Qcle. simpl. rewrite !Qred_correct.
  unfold Qdiv. apply Qmult_le_0_compat.
  - change 0%Q with (inject_Z 0). rewrite <- Zle_Qle. assumption.
  - apply Qinv_le_0_compat. change 0%Q with (inject_Z 0).
    rewrite <- Zle_Qle. lia.
Qed.

Lemma ratio_pos a n : 0 < a -> 0 < n -> (0 < ratio a n)%Qc.
Proof.
  intros Ha Hn. unfold ratio, Qclt. simpl. rewrite !Qred_correct.
  unfold Qdiv. apply Qmult_lt_0_compat.
  - change 0%Q with (inject_Z 0). rewrite <- Zlt_Qlt. assumption.
  - apply Qinv_lt_0_compat. change 0%Q with (inject_Z 0).
    rewrite <- Zlt_Qlt. assumption.
Qed.

Lemma nearest_double_le a1 a2 n :
  a1 <= a2 -> 1 <= n -> (nearest_double a1 n <= nearest_double a2 n)%Qc.
Proof.
  intros Ha Hn. unfold nearest_double. pose proof double_scale_pos.
  apply ratio_le; [|lia]. apply signed_units_mono; lia.
Qed.

Lemma signed_units_nonneg a b : 0 <= a -> 0 < b -> 0 <= signed_units a b.
Proof.
  intros Ha Hb. unfold signed_units.
  pose proof (nearest_units_nonneg (Z.abs a) (Z.abs b)).
  pose proof (Z.sgn_nonneg a). pose proof (Z.sgn_pos b Hb). nia.
Qed.

Lemma nearest_double_nonneg a b :
  0 <= a -> 0 < b -> (0 <= nearest_double a b)%Qc.
Proof.
  intros Ha Hb. unfold nearest_double. pose proof double_scale_pos.
  apply ratio_nonneg; [|lia]. now apply signed_units_nonneg.
Qed.

Lemma nearest_double_pos a b :
  0 < b -> b <= a * double_scale -> (0 < nearest_double a b)%Qc.
Proof.
  intros Hb Ha. unfold nearest_double. pose proof double_scale_pos as HS.
  apply ratio_pos; [|lia]. unfold signed_units.
  assert (0 < a) by nia.
  rewrite (Z.sgn_pos a), (Z.sgn_pos b), (Z.abs_eq a), (Z.abs_eq b) by lia.
  pose proof (nearest_units_pos a b Hb Ha). lia.
Qed.

(** The rounding on known doubles: 1/2 and 12 are doubles; 1/3 and 1/5
    are not; [2 ^ 53 + 1] lies half way between two doubles and goes to
    the even one; [1 / 10 ^ 400] is below half the least positive double
    and [10 ^ 400] is beyond the largest one. *)
Example nearest_double_samples :
  nearest_double 1 2 = ratio 1 2 /\
  nearest_double 12 1 = ratio 12 1 /\
  nearest_double (-7) 2 = ratio (-7) 2 /\
  nearest_double 1 3 = ratio 6004799503160661 (2 ^ 54) /\
  nearest_double 1 5 = ratio 3602879701896397 (2 ^ 54) /\
  nearest_double (2 ^ 53 + 1) 1 = ratio (2 ^ 53) 1 /\
  nearest_double (2 ^ 53 + 3) 1 = ratio (2 ^ 53 + 4) 1 /\
  nearest_double 1 (10 ^ 400) = Q2Qc 0 /\
  overflows 1 (10 ^ 400) = false /\
  overflows (10 ^ 400) 1 = true /\
  overflows (2 ^ 1024 - 2 ^ 970 - 1) 1 = false /\
  overflows (2 ^ 1024 - 2 ^ 970) 1 = true.
Proof.
  repeat apply conj;
    first [ apply Qc_is_canon; vm_compute; reflexivity
          | vm_compute; reflexivity ].
Qed.

Lemma truediv_nonzero a b :
  b <> 0 ->
  truediv a b =
  if overflows a b then Raise OverflowError else Ok (nearest_double a b).
Proof.
  intros Hb. unfold truediv.
  destruct (Z.eqb_spec b 0); [contradiction|reflexivity].
Qed.

Lemma average_cases total n :
  1 <= n ->
  average total n =
  if overflows total n then Raise OverflowError
  else Ok (nearest_double total n).
Proof.
  intros Hn. unfold average.
  destruct (Z.ltb_spec 0 n); [|lia]. apply truediv_nonzero. lia.
Qed.

Lemma throughput_entry_cases n latest :
  throughput_entry n latest =
  if (0 <? latest) && overflows n latest then Raise OverflowError
  else Ok (if 0 <? latest then nearest_double n latest else Q2Qc 0).
Proof.
  unfold throughput_entry. destruct (Z.ltb_spec 0 latest); [|reflexivity].
  rewrite andb_true_l. apply truediv_nonzero. lia.
Qed.

(** ** Completion and the error of [compute_metrics] *)

Lemma finish_time_unchanged ts : forall st,
  Forall (fun tr => tr_new tr <> "TERMINATED") ts ->
  finish_time (scan_from st ts) = finish_time st.
Proof.
  induction ts as [|tr ts IH]; intros st Hall; [reflexivity|].
  inversion Hall as [|? ? Hn Hts]; subst.
  rewrite scan_from_cons, IH by assumption.
  rewrite finish_time_step.
  destruct (String.eqb_spec (tr_new tr) "TERMINATED"); [contradiction|].
  reflexivity.
Qed.

Lemma finish_time_stays ts : forall st,
  finish_time st <> ∅ -> finish_time (scan_from st ts) <> ∅.
Proof.
  induction ts as [|tr ts IH]; intros st Hne; [assumption|].
  rewrite scan_from_cons. apply IH. rewrite finish_time_step.
  destruct (String.eqb (tr_new tr) "TERMINATED"); [|assumption].
  apply insert_non_empty.
Qed.

Lemma finish_time_recorded ts : forall st,
  Exists (fun tr => tr_new tr = "TERMINATED") ts ->
  finish_time (scan_from st ts) <> ∅.
Proof.
  induction ts as [|tr ts IH]; intros st Hex.
  - inversion Hex.
  - rewrite scan_from_cons. inversion Hex as [? ? Hn|? ? Hts]; subst.
    + apply finish_time_stays. rewrite finish_time_step, Hn. simpl.
      apply insert_non_empty.
    + now apply IH.
Qed.

Lemma terminated_dec (ts : list transition) :
  Exists (fun tr => tr_new tr = "TERMINATED") ts \/
  Forall (fun tr => tr_new tr <> "TERMINATED") ts.
Proof.
  induction ts as [|tr ts [IH|IH]].
  - right. constructor.
  - left. now apply Exists_cons_tl.
  - destruct (decide (tr_new tr = "TERMINATED")).
    + left. now apply Exists_cons_hd.
    + right. now constructor.
Qed.

Lemma terminated_excl (ts : list transition) :
  Exists (fun tr => tr_new tr = "TERMINATED") ts ->
  Forall (fun tr => tr_new tr <> "TERMINATED") ts -> False.
Proof.
  intros Hex Hall. apply Exists_exists in Hex as (tr & Hin & Hn).
  rewrite Forall_forall in Hall. exact (Hall tr Hin Hn).
Qed.

(** What [compute_metrics] does once some finish time is recorded. *)
Lemma compute_metrics_result ts :
  finish_time (scan ts) <> ∅ ->
  exists latest,
    dict_max (finish_time (scan ts)) = Ok latest /\
    is_latest (finish_time (scan ts)) latest /\
    compute_metrics ts =
      if metrics_overflow ts then Raise OverflowError
      else Ok (Metrics
                 (if 0 <? latest
                  then nearest_double (process_count (scan ts)) latest
                  else Q2Qc 0)
                 (nearest_double (dict_sum (wait_time (scan ts)))
                                 (process_count (scan ts)))
                 (nearest_double (dict_sum (turnaround (scan ts)))
                                 (process_count (scan ts)))
                 (nearest_double (dict_sum (response (scan ts)))
                                 (process_count (scan ts)))).
Proof.
  intros Hne. destruct (dict_max_nonempty _ Hne) as (latest & Hmax & Hlat).
  exists latest. split; [assumption|]. split; [assumption|].
  unfold compute_metrics, metrics_overflow.
  rewrite bool_decide_eq_false_2 by assumption.
  rewrite Hmax. pose proof (process_count_pos (scan ts)) as Hn.
  unfold mbind, result_bind. cbv beta iota zeta.
  rewrite throughput_entry_cases. rewrite !average_cases by assumption.
  destruct ((0 <? latest) && overflows (process_count (scan ts)) latest);
    [reflexivity|].
  destruct (overflows (dict_sum (wait_time (scan ts))) _); [reflexivity|].
  destruct (overflows (dict_sum (turnaround (scan ts))) _); [reflexivity|].
  destruct (overflows (dict_sum (response (scan ts))) _); reflexivity.
Qed.

Lemma compute_metrics_no_finish ts :
  finish_time (scan ts) = ∅ -> compute_metrics ts = Raise RuntimeError.
Proof.
  intros He. unfold compute_metrics.
  now rewrite bool_decide_eq_true_2 by assumption.
Qed.

(** The record returned when no quotient overflows. *)
Lemma compute_metrics_ok ts :
  finish_time (scan ts) <> ∅ ->
  metrics_overflow ts = false ->
  exists latest,
    is_latest (finish_time (scan ts)) latest /\
    compute_metrics ts =
      Ok (Metrics
            (if 0 <? latest
             then nearest_double (process_count (scan ts)) latest
             else Q2Qc 0)
            (nearest_double (dict_sum (wait_time (scan ts)))
                            (process_count (scan ts)))
            (nearest_double (dict_sum (turnaround (scan ts)))
                            (process_count (scan ts)))
            (nearest_double (dict_sum (response (scan ts)))
                            (process_count (scan ts)))).
Proof.
  intros Hne Hov.
  destruct (compute_metrics_result ts Hne) as (latest & _ & Hlat & Hm).
  rewrite Hov in Hm. eauto.
Qed.

(** A returned record is the one above. *)
Lemma compute_metrics_returned ts m :
  compute_metrics ts = Ok m ->
  finish_time (scan ts) <> ∅ /\
  metrics_overflow ts = false /\
  exists latest,
    is_latest (finish_time (scan ts)) latest /\
    m = Metrics
          (if 0 <? latest
           then nearest_double (process_count (scan ts)) latest
           else Q2Qc 0)
          (nearest_double (dict_sum (wait_time (scan ts)))
                          (process_count (scan ts)))
          (nearest_double (dict_sum (turnaround (scan ts)))
                          (process_count (scan ts)))
          (nearest_double (dict_sum (response (scan ts)))
                          (process_count (scan ts))).
Proof.
  intros Hm.
  assert (Hne : finish_time (scan ts) <> ∅).
  { intros He. rewrite (compute_metrics_no_finish ts He) in Hm. discriminate. }
  split; [assumption|].
  destruct (compute_metrics_result ts Hne) as (latest & _ & Hlat & Hr).
  rewrite Hm in Hr. destruct (metrics_overflow ts); [discriminate|].
  split; [reflexivity|]. exists latest. split; [assumption|]. congruence.
Qed.

(** The three outcomes of [compute_metrics]. *)
Lemma compute_metrics_cases ts :
  (Forall (fun tr => tr_new tr <> "TERMINATED") ts /\
   compute_metrics ts = Raise RuntimeError) \/
  (Exists (fun tr => tr_new tr = "TERMINATED") ts /\
   metrics_overflow ts = true /\
   compute_metrics ts = Raise OverflowError) \/
  (Exists (fun tr => tr_new tr = "TERMINATED") ts /\
   metrics_overflow ts = false /\
   exists m, compute_metrics ts = Ok m).
Proof.
  destruct (terminated_dec ts) as [Hex|Hall].
  - right.
    destruct (compute_metrics_result ts) as (latest & _ & _ & Hm);
      [now apply finish_time_recorded|].
    destruct (metrics_overflow ts); [left|right]; eauto.
  - left. split; [assumption|]. apply compute_metrics_no_finish.
    unfold scan. now rewrite finish_time_unchanged.
Qed.

(** C3 fails as stated: [overflow_trace] has a TERMINATED transition, yet
    [compute_metrics] raises on it and returns no record: the turnaround
    of P is [10 ^ 400], and the quotient [10 ^ 400 / 1] of
    [avg_turnaround] is beyond the largest double. *)
Lemma overflow_with_terminated :
  Exists (fun tr => tr_new tr = "TERMINATED") overflow_trace /\
  compute_metrics overflow_trace = Raise OverflowError /\
  ~ exists m, compute_metrics overflow_trace = Ok m.
Proof.
  assert (Hm : compute_metrics overflow_trace = Raise OverflowError)
    by (vm_compute; reflexivity).
  split; [apply Exists_cons_tl, Exists_cons_hd; reflexivity|].
  split; [exact Hm|]. intros [m Hok]. rewrite Hm in Hok. discriminate.
Qed.

(** C3 (as the code behaves): [compute_metrics] raises [RuntimeError]
    exactly when no transition of the trace has TERMINATED as its new
    state. When some transition has, it raises [OverflowError] exactly when
    one of its quotients is beyond the largest double, and returns a
    metrics record exactly when none is. It raises no other error. *)
Theorem runtime_error_iff_no_terminated (ts : list transition) :
  (compute_metrics ts = Raise RuntimeError <->
   Forall (fun tr => tr_new tr <> "TERMINATED") ts) /\
  (compute_metrics ts = Raise OverflowError <->
   Exists (fun tr => tr_new tr = "TERMINATED") ts /\
   metrics_overflow ts = true) /\
  ((exists m, compute_metrics ts = Ok m) <->
   Exists (fun tr => tr_new tr = "TERMINATED") ts /\
   metrics_overflow ts = false) /\
  (forall e, compute_metrics ts = Raise e ->
             e = RuntimeError \/ e = OverflowError).
Proof.
  destruct (compute_metrics_cases ts)
    as [[Hall Hm]|[(Hex & Hov & Hm)|(Hex & Hov & m & Hm)]].
  - split; [split; [intros _; exact Hall|intros _; exact Hm]|].
    split; [split; [congruence|]|].
    { intros [Hex _]. destruct (terminated_excl ts Hex Hall). }
    split; [split|].
    + intros [m Hok]. congruence.
    + intros [Hex _]. destruct (terminated_excl ts Hex Hall).
    + intros e He. left. congruence.
  - split; [split; [congruence|]|].
    { intros Hall. destruct (terminated_excl ts Hex Hall). }
    split; [split; [intros _; split; assumption|intros _; exact Hm]|].
    split; [split|].
    + intros [m Hok]. congruence.
    + intros [_ Hov']. congruence.
    + intros e He. right. congruence.
  - split; [split; [congruence|]|].
    { intros Hall. destruct (terminated_excl ts Hex Hall). }
    split; [split; [congruence|]|].
    { intros [_ Hov']. congruence. }
    split; [split|].
    + intros _. split; assumption.
    + intros _. eauto.
    + intros e He. congruence.
Qed.

(** ** Throughput *)

(** C5 fails as stated: in [unfinished_trace] one process reaches
    TERMINATED, the latest completion time is 5, and the throughput
    returned is the double of 2/5 (two processes arrived), not that of
    1/5. *)
Lemma throughput_counts_arrivals :
  size (finish_time (scan unfinished_trace)) = 1%nat /\
  dict_max (finish_time (scan unfinished_trace)) = Ok 5 /\
  exists m, compute_metrics unfinished_trace = Ok m /\
            throughput m = nearest_double 2 5 /\
            throughput m <> nearest_double 1 5.
Proof.
  split; [reflexivity|]. split; [reflexivity|].
  eexists. split; [vm_compute; reflexivity|].
  split; [apply Qc_is_canon; vm_compute; reflexivity|].
  intros H. apply (f_equal this) in H. vm_compute in H. discriminate.
Qed.

(** C5 (as the code behaves): for every trace with a TERMINATED transition
    in which the number of processes with a recorded arrival, floored to
    1, is the number of processes that reached TERMINATED, and no quotient
    is beyond the largest double, the throughput returned is the double
    nearest to the number of processes that reached TERMINATED divided by
    the latest completion time when that time is positive, and 0
    otherwise. *)
Theorem throughput_completed_over_latest (ts : list transition) :
  Exists (fun tr => tr_new tr = "TERMINATED") ts ->
  metrics_overflow ts = false ->
  Z.max 1 (Z.of_nat (size (arrivals (scan ts))))
    = Z.of_nat (size (finish_time (scan ts))) ->
  exists m latest,
    compute_metrics ts = Ok m /\
    is_latest (finish_time (scan ts)) latest /\
    throughput m =
      if 0 <? latest
      then nearest_double (Z.of_nat (size (finish_time (scan ts)))) latest
      else Q2Qc 0.
Proof.
  intros Hex Hov Hsize.
  pose proof (finish_time_recorded ts empty_timelines Hex) as Hne.
  fold (scan ts) in Hne.
  destruct (compute_metrics_ok ts Hne Hov) as (latest & Hlat & Hm).
  eexists. exists latest. split; [exact Hm|]. split; [assumption|].
  cbn [throughput]. now rewrite process_count_floor, Hsize.
Qed.

Lemma throughput_completed_over_latest_witness :
  Exists (fun tr => tr_new tr = "TERMINATED") interleaved_trace /\
  metrics_overflow interleaved_trace = false /\
  Z.max 1 (Z.of_nat (size (arrivals (scan interleaved_trace))))
    = Z.of_nat (size (finish_time (scan interleaved_trace))) /\
  exists m latest,
    compute_metrics interleaved_trace = Ok m /\
    is_latest (finish_time (scan interleaved_trace)) latest /\
    throughput m =
      if 0 <? latest
      then nearest_double
             (Z.of_nat (size (finish_time (scan interleaved_trace)))) latest
      else Q2Qc 0.
Proof.
  assert (Hex : Exists (fun tr => tr_new tr = "TERMINATED") interleaved_trace).
  { do 3 apply Exists_cons_tl. apply Exists_cons_hd. reflexivity. }
  assert (Hov : metrics_overflow interleaved_trace = false).
  { vm_compute. reflexivity. }
  assert (Hsize : Z.max 1 (Z.of_nat (size (arrivals (scan interleaved_trace))))
                  = Z.of_nat (size (finish_time (scan interleaved_trace)))).
  { vm_compute. reflexivity. }
  split; [exact Hex|]. split; [exact Hov|]. split; [exact Hsize|].
  exact (throughput_completed_over_latest interleaved_trace Hex Hov Hsize).
Defined.

(** C6 fails as stated: in [one_in_three_trace] one process arrives and
    the latest finish time is 3; the throughput returned is the double
    nearest to 1/3, which is not the rational 1/3. *)
Lemma throughput_not_exact :
  Exists (fun tr => tr_new tr = "TERMINATED") one_in_three_trace /\
  Z.max 1 (Z.of_nat (size (arrivals (scan one_in_three_trace)))) = 1 /\
  dict_max (finish_time (scan one_in_three_trace)) = Ok 3 /\
  exists m, compute_metrics one_in_three_trace = Ok m /\
            throughput m = ratio 6004799503160661 (2 ^ 54) /\
            throughput m <> ratio 1 3.
Proof.
  split; [do 2 apply Exists_cons_tl; apply Exists_cons_hd; reflexivity|].
  split; [reflexivity|]. split; [reflexivity|].
  eexists. split; [vm_compute; reflexivity|].
  split; [apply Qc_is_canon; vm_compute; reflexivity|].
  intros H. apply (f_equal this) in H. vm_compute in H. discriminate.
Qed.

(** C6 (as the code behaves): for every trace with a TERMINATED transition
    none of whose quotients is beyond the largest double,
    [compute_metrics] returns a record whose throughput is the double
    nearest to [n / total_finish_time] when [total_finish_time > 0] and 0
    otherwise, where [n] is the number of processes with a recorded
    arrival time, floored to 1, and [total_finish_time] is the maximum
    recorded finish time. *)
Theorem throughput_formula (ts : list transition) :
  Exists (fun tr => tr_new tr = "TERMINATED") ts ->
  metrics_overflow ts = false ->
  exists m total_finish_time,
    compute_metrics ts = Ok m /\
    is_latest (finish_time (scan ts)) total_finish_time /\
    throughput m =
      if 0 <? total_finish_time
      then nearest_double (Z.max 1 (Z.of_nat (size (arrivals (scan ts)))))
                          total_finish_time
      else Q2Qc 0.
Proof.
  intros Hex Hov.
  pose proof (finish_time_recorded ts empty_timelines Hex) as Hne.
  fold (scan ts) in Hne.
  destruct (compute_metrics_ok ts Hne Hov) as (latest & Hlat & Hm).
  eexists. exists latest. split; [exact Hm|]. split; [assumption|].
  cbn [throughput]. now rewrite process_count_floor.
Qed.

Lemma throughput_formula_witness :
  Exists (fun tr => tr_new tr = "TERMINATED") unfinished_trace /\
  metrics_overflow unfinished_trace = false /\
  exists m total_finish_time,
    compute_metrics unfinished_trace = Ok m /\
    is_latest (finish_time (scan unfinished_trace)) total_finish_time /\
    throughput m =
      if 0 <? total_finish_time
      then nearest_double
             (Z.max 1 (Z.of_nat (size (arrivals (scan unfinished_trace)))))
             total_finish_time
      else Q2Qc 0.
Proof.
  assert (Hex : Exists (fun tr => tr_new tr = "TERMINATED") unfinished_trace).
  { do 3 apply Exists_cons_tl. apply Exists_cons_hd. reflexivity. }
  assert (Hov : metrics_overflow unfinished_trace = false).
  { vm_compute. reflexivity. }
  split; [exact Hex|]. split; [exact Hov|].
  exact (throughput_formula unfinished_trace Hex Hov).
Defined.

(** ** Division by zero and overflow *)

(** C10 fails as stated: [overflow_trace] has a TERMINATED transition and
    [n] is 1, but the average of the turnaround times raises
    [OverflowError], and so does [compute_metrics]: it is not total. *)
Lemma compute_metrics_not_total :
  Exists (fun tr => tr_new tr = "TERMINATED") overflow_trace /\
  process_count (scan overflow_trace) = 1 /\
  average (dict_sum (turnaround (scan overflow_trace)))
          (process_count (scan overflow_trace)) = Raise OverflowError /\
  compute_metrics overflow_trace = Raise OverflowError.
Proof.
  split; [apply Exists_cons_tl, Exists_cons_hd; reflexivity|].
  split; [reflexivity|]. split; vm_compute; reflexivity.
Qed.

(** C10 (as the code behaves): for every trace with a TERMINATED
    transition, [compute_metrics] divides by no zero and raises neither
    [ZeroDivisionError] nor [RuntimeError]: the denominator [n] of the
    averages is at least 1, and the division of the throughput entry is
    taken only when the latest completion time is positive. Each average
    and the throughput entry are the nearest doubles of their quotients,
    or [OverflowError] when that double is beyond the largest one;
    [compute_metrics] returns a metrics record when no quotient overflows
    and raises [OverflowError] otherwise. *)
Theorem compute_metrics_divides_safely (ts : list transition) :
  Exists (fun tr => tr_new tr = "TERMINATED") ts ->
  1 <= process_count (scan ts) /\
  (forall total,
     average total (process_count (scan ts))
     = if overflows total (process_count (scan ts))
       then Raise OverflowError
       else Ok (nearest_double total (process_count (scan ts)))) /\
  (forall latest,
     throughput_entry (process_count (scan ts)) latest
     = if (0 <? latest) && overflows (process_count (scan ts)) latest
       then Raise OverflowError
       else Ok (if 0 <? latest
                then nearest_double (process_count (scan ts)) latest
                else Q2Qc 0)) /\
  compute_metrics ts <> Raise ZeroDivisionError /\
  compute_metrics ts <> Raise RuntimeError /\
  (metrics_overflow ts = false -> exists m, compute_metrics ts = Ok m) /\
  (metrics_overflow ts = true -> compute_metrics ts = Raise OverflowError).
Proof.
  intros Hex.
  pose proof (finish_time_recorded ts empty_timelines Hex) as Hne.
  fold (scan ts) in Hne.
  destruct (compute_metrics_result ts Hne) as (latest & _ & _ & Hm).
  pose proof (process_count_pos (scan ts)) as Hn.
  split; [assumption|]. split; [intros total; now apply average_cases|].
  split; [intros l; apply throughput_entry_cases|].
  destruct (metrics_overflow ts); rewrite Hm;
    (split; [discriminate|]); (split; [discriminate|]);
    split; first [discriminate | eauto].
Qed.

Lemma compute_metrics_divides_safely_witness :
  Exists (fun tr => tr_new tr = "TERMINATED") multi_wait_trace /\
  1 <= process_count (scan multi_wait_trace) /\
  (forall total,
     average total (process_count (scan multi_wait_trace))
     = if overflows total (process_count (scan multi_wait_trace))
       then Raise OverflowError
       else Ok (nearest_double total (process_count (scan multi_wait_trace)))) /\
  (forall latest,
     throughput_entry (process_count (scan multi_wait_trace)) latest
     = if (0 <? latest) && overflows (process_count (scan multi_wait_trace)) latest
       then Raise OverflowError
       else Ok (if 0 <? latest
                then nearest_double (process_count (scan multi_wait_trace)) latest
                else Q2Qc 0)) /\
  compute_metrics multi_wait_trace <> Raise ZeroDivisionError /\
  compute_metrics multi_wait_trace <> Raise RuntimeError /\
  (metrics_overflow multi_wait_trace = false ->
   exists m, compute_metrics multi_wait_trace = Ok m) /\
  (metrics_overflow multi_wait_trace = true ->
   compute_metrics multi_wait_trace = Raise OverflowError).
Proof.
  assert (Hex : Exists (fun tr => tr_new tr = "TERMINATED") multi_wait_trace).
  { do 5 apply Exists_cons_tl. apply Exists_cons_hd. reflexivity. }
  split; [exact Hex|].
  exact (compute_metrics_divides_safely multi_wait_trace Hex).
Defined.

(** ** Response and turnaround *)

Lemma nondecreasing_bound x l :
  nondecreasing (x :: l) = true -> Forall (fun y => x <= y) l.
Proof.
  revert x. induction l as [|y l IH]; intros x H; [constructor|].
  simpl in H. apply andb_true_iff in H as [Hxy Hl].
  apply Z.leb_le in Hxy. constructor; [assumption|].
  eapply Forall_impl; [apply IH, Hl|]. simpl. intros; lia.
Qed.

Lemma nondecreasing_tail x l :
  nondecreasing (x :: l) = true -> nondecreasing l = true.
Proof.
  destruct l as [|y l]; [reflexivity|]. simpl.
  intros H. now apply andb_true_iff in H as [_ H].
Qed.

Lemma view_step_not_ready v tr :
  String.eqb (tr_new tr) "READY" = false ->
  v_arrival (view_step v tr) = v_arrival v /\
  (forall t1, v_first_run v = Some t1 ->
              v_first_run (view_step v tr) = Some t1).
Proof.
  intros Htr. unfold view_step, view_ready_again, view_terminated,
    view_running, view_arrival. rewrite Htr. simpl. split.
  - repeat (case_match; simpl); reflexivity.
  - intros t1 Hrun. repeat (case_match; simpl); congruence.
Qed.

(** Transitions that do not enter READY keep the arrival time, and keep
    the first run time once there is one. *)
Lemma view_tail_keeps rest : forall v t1,
  forallb (fun tr => negb (String.eqb (tr_new tr) "READY")) rest = true ->
  v_first_run v = Some t1 ->
  v_arrival (fold_left view_step rest v) = v_arrival v /\
  v_first_run (fold_left view_step rest v) = Some t1.
Proof.
  induction rest as [|tr rest IH]; intros v t1 Hall Hrun; [now split|].
  simpl in Hall. apply andb_true_iff in Hall as [Htr Hall].
  apply negb_true_iff in Htr.
  destruct (view_step_not_ready v tr Htr) as [Ha1 Hr1].
  destruct (IH (view_step v tr) t1 Hall (Hr1 t1 Hrun)) as [Ha Hr].
  simpl. split; [congruence|assumption].
Qed.

Lemma view_step_finish v z :
  tr_new z = "TERMINATED" -> v_finish (view_step v z) = Some (tr_time z).
Proof.
  intros Hz. unfold view_step, view_ready_again, view_terminated,
    view_running, view_arrival. rewrite Hz. reflexivity.
Qed.

Lemma view_step_new_ready v a :
  tr_old a = "NEW" -> tr_new a = "READY" ->
  view_step v a = ProcessView (Some (tr_time a)) (v_first_run v) (v_finish v)
                              (v_wait v) (Some (tr_time a)).
Proof.
  destruct a as [t p o n]. simpl. intros -> ->. reflexivity.
Qed.

Lemma view_step_ready_running v b :
  tr_old b = "READY" -> tr_new b = "RUNNING" ->
  v_arrival (view_step v b) = v_arrival v /\
  (v_first_run v = None -> v_first_run (view_step v b) = Some (tr_time b)).
Proof.
  destruct b as [t p o n]. simpl. intros -> ->.
  split; [reflexivity|]. intros Hrun.
  unfold view_step, view_ready_again, view_terminated, view_running,
    view_arrival. simpl. now rewrite Hrun.
Qed.

(** What the scan holds for a process with a well-formed lifecycle. *)
Lemma well_formed_view l :
  well_formed_lifecycle l = true ->
  nondecreasing (tr_time <$> l) = true ->
  exists t0 t1 tf,
    v_arrival (fold_left view_step l empty_view) = Some t0 /\
    v_first_run (fold_left view_step l empty_view) = Some t1 /\
    v_finish (fold_left view_step l empty_view) = Some tf /\
    t1 <= tf.
Proof.
  destruct l as [|a [|b rest]]; try discriminate.
  intros Hwf Hord. simpl in Hwf.
  apply andb_true_iff in Hwf as [Hwf Hlast].
  apply andb_true_iff in Hwf as [Hwf Hrest].
  apply andb_true_iff in Hwf as [Hwf Hbn].
  apply andb_true_iff in Hwf as [Hwf Hbo].
  apply andb_true_iff in Hwf as [Hao Han].
  apply String.eqb_eq in Hao, Han, Hbo, Hbn.
  destruct (last rest) as [z|] eqn:Hz; [|discriminate].
  apply String.eqb_eq in Hlast.
  apply last_Some in Hz as [rest' ->].
  exists (tr_time a), (tr_time b), (tr_time z).
  set (v1 := view_step empty_view a).
  set (v2 := view_step v1 b).
  assert (Hv1 : v1 = ProcessView (Some (tr_time a)) None None None
                                 (Some (tr_time a))).
  { subst v1. now rewrite view_step_new_ready. }
  destruct (view_step_ready_running v1 b Hbo Hbn) as [Hv2a Hv2r].
  fold v2 in Hv2a, Hv2r.
  assert (Hrun : v_first_run v2 = Some (tr_time b)).
  { apply Hv2r. now rewrite Hv1. }
  change (fold_left view_step (a :: b :: rest' ++ [z]) empty_view)
    with (fold_left view_step (rest' ++ [z]) v2).
  destruct (view_tail_keeps _ v2 (tr_time b) Hrest Hrun) as [Ha Hr].
  rewrite Ha, Hr, Hv2a, Hv1. repeat split.
  - rewrite fold_left_app. simpl. now apply view_step_finish.
  - change (tr_time <$> a :: b :: rest' ++ [z])
      with (tr_time a :: (tr_time <$> b :: rest' ++ [z])) in Hord.
    apply nondecreasing_tail in Hord.
    change (tr_time <$> b :: rest' ++ [z])
      with (tr_time b :: (tr_time <$> rest' ++ [z])) in Hord.
    apply nondecreasing_bound in Hord. rewrite fmap_app in Hord.
    apply Forall_app in Hord as [_ Hz]. simpl in Hz.
    now inversion Hz.
Qed.

(** A dictionary whose entries are dominated key by key has the smaller
    sum. *)
Lemma dict_sum_le (r : gmap string Z) : forall t : gmap string Z,
  (forall k, match r !! k, t !! k with
             | Some x, Some y => x <= y
             | None, None => True
             | _, _ => False
             end) ->
  dict_sum r <= dict_sum t.
Proof.
  induction r as [|k x r Hk IH] using map_ind; intros t H.
  - assert (Ht : t = ∅).
    { apply map_empty. intros i. specialize (H i).
      rewrite lookup_empty in H. destruct (t !! i); [contradiction|reflexivity]. }
    subst t. lia.
  - pose proof (H k) as Hkk. rewrite lookup_insert_eq in Hkk.
    destruct (t !! k) as [y|] eqn:Htk; [|contradiction].
    rewrite <- (insert_delete_id t k y Htk).
    rewrite !dict_sum_insert by (assumption || apply lookup_delete_eq).
    assert (Hle : dict_sum r <= dict_sum (delete k t)).
    { apply IH. intros j. destruct (decide (j = k)) as [->|Hne].
      - now rewrite Hk, lookup_delete_eq.
      - specialize (H j).
        rewrite lookup_insert_ne in H by congruence.
        now rewrite lookup_delete_ne by congruence. }
    lia.
Qed.

(** In a well-formed, time-ordered trace every process that occurs has an
    arrival, a first run and a finish time, the last two in order. *)
Lemma well_formed_process ts p :
  well_formed_trace ts = true ->
  time_ordered_trace ts = true ->
  lifecycle p ts <> [] ->
  exists t0 t1 tf,
    arrivals (scan ts) !! p = Some t0 /\
    first_run (scan ts) !! p = Some t1 /\
    finish_time (scan ts) !! p = Some tf /\
    t1 <= tf.
Proof.
  intros Hwf Hord Hne.
  destruct (lifecycle p ts) as [|x l] eqn:Hl; [contradiction|].
  assert (Hx : x ∈ lifecycle p ts) by (rewrite Hl; left).
  apply list_elem_of_filter in Hx as [Hp Hin].
  apply list_elem_of_In in Hin.
  unfold well_formed_trace in Hwf. unfold time_ordered_trace in Hord.
  rewrite List.forallb_forall in Hwf, Hord.
  specialize (Hwf x Hin). specialize (Hord x Hin). simpl in Hwf, Hord.
  rewrite Hp in Hwf, Hord.
  destruct (well_formed_view _ Hwf Hord) as (t0 & t1 & tf & Ha & Hr & Hf & Hle).
  rewrite <- view_scan in Ha, Hr, Hf.
  exists t0, t1, tf. auto.
Qed.

Lemma absent_process ts p :
  lifecycle p ts = [] -> arrivals (scan ts) !! p = None.
Proof.
  intros Hl. change (v_arrival (view p (scan ts)) = None).
  rewrite view_scan, Hl. reflexivity.
Qed.

Lemma response_below_turnaround ts :
  well_formed_trace ts = true ->
  time_ordered_trace ts = true ->
  dict_sum (response (scan ts)) <= dict_sum (turnaround (scan ts)).
Proof.
  intros Hwf Hord. apply dict_sum_le. intros p.
  unfold response, turnaround. rewrite !map_lookup_imap.
  destruct (lifecycle p ts) as [|x l] eqn:Hl.
  - rewrite (absent_process ts p Hl). exact I.
  - destruct (well_formed_process ts p Hwf Hord)
      as (t0 & t1 & tf & Ha & Hr & Hf & Hle); [rewrite Hl; discriminate|].
    rewrite Ha. simpl. rewrite Hr, Hf. lia.
Qed.

(** Time stamps that never go back along the trace never go back along
    the lifecycle of a process. *)
Lemma nondecreasing_cons x l :
  nondecreasing (x :: l) = true <->
  Forall (fun y => x <= y) l /\ nondecreasing l = true.
Proof.
  revert x. induction l as [|y l IH]; intros x.
  - split; [intros _; split; [constructor|reflexivity]|reflexivity].
  - change (nondecreasing (x :: y :: l))
      with ((x <=? y) && nondecreasing (y :: l)).
    rewrite andb_true_iff, Z.leb_le. split.
    + intros [Hxy Hyl]. split; [|assumption]. constructor; [assumption|].
      apply IH in Hyl as [Hall _].
      eapply Forall_impl; [exact Hall|]. simpl. intros z Hz. lia.
    + intros [Hall Hyl]. split; [|assumption]. now inversion Hall.
Qed.

Lemma nondecreasing_filter (P : transition -> Prop)
    `{!forall tr, Decision (P tr)} (ts : list transition) :
  nondecreasing (tr_time <$> ts) = true ->
  nondecreasing (tr_time <$> filter P ts) = true.
Proof.
  induction ts as [|tr ts IH]; [reflexivity|].
  rewrite fmap_cons. intros Hnd.
  apply nondecreasing_cons in Hnd as [Hall Hts].
  destruct (decide (P tr)) as [Hp|Hp].
  - rewrite filter_cons_True by assumption. rewrite fmap_cons.
    apply nondecreasing_cons. split; [|now apply IH].
    rewrite Forall_fmap in Hall |- *.
    rewrite Forall_forall in Hall |- *. intros y Hy.
    apply list_elem_of_filter in Hy as [_ Hy]. now apply Hall.
  - rewrite filter_cons_False by assumption. now apply IH.
Qed.

Lemma monotonic_trace_time_ordered ts :
  nondecreasing (tr_time <$> ts) = true -> time_ordered_trace ts = true.
Proof.
  intros H. unfold time_ordered_trace. apply List.forallb_forall.
  intros tr _. unfold lifecycle. now apply nondecreasing_filter.
Qed.

(** C8: for every trace in which the lifecycle of each process is
    well-formed (NEW -> READY, READY -> RUNNING, ..., ending in
    TERMINATED, without re-entry into READY), the time stamps being those
    of a trace, which never go back along the lifecycle of a process, the
    [avg_response] of the record that [compute_metrics] returns is at most
    its [avg_turnaround]; such a trace, when not empty, has a record
    returned unless a quotient is beyond the largest double. *)
Theorem response_le_turnaround (ts : list transition) :
  well_formed_trace ts = true ->
  time_ordered_trace ts = true ->
  (forall m, compute_metrics ts = Ok m ->
             (avg_response m <= avg_turnaround m)%Qc) /\
  (ts <> [] -> metrics_overflow ts = false ->
   exists m, compute_metrics ts = Ok m).
Proof.
  intros Hwf Hord. split.
  - intros m Hm.
    destruct (compute_metrics_returned ts m Hm)
      as (_ & _ & latest & _ & ->).
    cbn [avg_response avg_turnaround].
    apply nearest_double_le; [now apply response_below_turnaround|].
    apply process_count_pos.
  - intros Hne Hov.
    assert (Hfin : finish_time (scan ts) <> ∅).
    { destruct ts as [|tr ts']; [contradiction|].
      destruct (well_formed_process (tr :: ts') (tr_pid tr) Hwf Hord)
        as (t0 & t1 & tf & _ & _ & Hf & _).
      - unfold lifecycle. rewrite filter_cons_True by reflexivity.
        discriminate.
      - intros He. rewrite He, lookup_empty in Hf. discriminate. }
    destruct (compute_metrics_ok ts Hfin Hov) as (latest & _ & Hm). eauto.
Qed.

Lemma response_le_turnaround_witness :
  well_formed_trace interleaved_trace = true /\
  time_ordered_trace interleaved_trace = true /\
  (forall m, compute_metrics interleaved_trace = Ok m ->
             (avg_response m <= avg_turnaround m)%Qc) /\
  (interleaved_trace <> [] -> metrics_overflow interleaved_trace = false ->
   exists m, compute_metrics interleaved_trace = Ok m).
Proof.
  assert (Hwf : well_formed_trace interleaved_trace = true) by reflexivity.
  assert (Hord : time_ordered_trace interleaved_trace = true) by reflexivity.
  split; [exact Hwf|]. split; [exact Hord|].
  exact (response_le_turnaround interleaved_trace Hwf Hord).
Defined.

(** Without the order of the time stamps the inequality is lost: in
    [out_of_order_trace] the dispatch of P is stamped 10 and its
    completion 5, and the record returned has [avg_response] 10 above
    [avg_turnaround] 5. *)
Example time_order_needed :
  well_formed_trace out_of_order_trace = true /\
  time_ordered_trace out_of_order_trace = false /\
  exists m, compute_metrics out_of_order_trace = Ok m /\
            avg_response m = ratio 10 1 /\
            avg_turnaround m = ratio 5 1 /\
            ~ (avg_response m <= avg_turnaround m)%Qc.
Proof.
  split; [reflexivity|]. split; [reflexivity|].
  eexists. split; [vm_compute; reflexivity|].
  split; [apply Qc_is_canon; vm_compute; reflexivity|].
  split; [apply Qc_is_canon; vm_compute; reflexivity|].
  vm_compute. intros H. apply H. reflexivity.
Qed.

(** ** The rows of the execution file *)

Example parse_sample_file :
  parse_execution_file 4300 sample_file =
  [ Transition 0 "1" "NEW" "READY"; Transition 0 "1" "READY" "RUNNING" ].
Proof. vm_compute. reflexivity. Qed.

Example int_of_str_samples :
  int_of_str 4300 "12" = Ok 12 /\ int_of_str 4300 "+1_000" = Ok 1000 /\
  int_of_str 4300 "-07" = Ok (-7) /\ int_of_str 4300 "" = Raise ValueError /\
  int_of_str 4300 "1__0" = Raise ValueError /\
  int_of_str 4300 "_1" = Raise ValueError /\
  int_of_str 4300 "1_" = Raise ValueError /\
  int_of_str 4300 "1 2" = Raise ValueError /\
  int_of_str 4300 "- 1" = Raise ValueError /\
  int_of_str 4300 "Time" = Raise ValueError.
Proof. vm_compute. repeat split; reflexivity. Qed.

Example split_samples :
  split "|" "a|b" = ["a"; "b"] /\ split "|" "" = [""] /\
  split "|" "|" = [""; ""] /\ split "|" "|0|1|" = [""; "0"; "1"; ""].
Proof. vm_compute. repeat split; reflexivity. Qed.

Lemma parse_execution_file_omap limit lines :
  parse_execution_file limit lines = omap (parse_row limit) lines.
Proof.
  unfold parse_execution_file.
  assert (H : forall acc,
             fold_left (fun transitions line =>
                          match parse_row limit line with
                          | Some tr => transitions ++ [tr]
                          | None => transitions
                          end) lines acc
             = acc ++ omap (parse_row limit) lines).
  { induction lines as [|line lines IH]; intros acc; simpl.
    - now rewrite app_nil_r.
    - rewrite IH. destruct (parse_row limit line); [|reflexivity].
      now rewrite <- app_assoc. }
  apply H.
Qed.

Lemma startswith_bar_not_plus s :
  startswith s "|" = true -> startswith s "+" = false.
Proof.
  destruct s as [|c s]; cbn [startswith]; [discriminate|].
  destruct (Ascii.eqb_spec "|" c) as [<-|]; [|discriminate].
  intros _. reflexivity.
Qed.

(** The rows for which the loop body appends a transition. *)
Lemma parse_row_accepted limit line tr :
  parse_row limit line = Some tr <-> accepted_row limit line tr.
Proof.
  unfold parse_row, accepted_row, column, columns.
  set (l := rstrip_newline line).
  destruct (startswith (strip l) "|") eqn:Hbar.
  - rewrite (startswith_bar_not_plus _ Hbar). cbn [negb].
    destruct (strip <$> split "|" l)
      as [|c0 [|time_str [|pid [|old_state [|new_state rest]]]]];
      cbn [nth length];
      try (split; [discriminate | intros (_ & ? & _); lia]).
    destruct (startswith time_str "Time").
    + split; [discriminate | intros (_ & _ & ? & _); discriminate].
    + destruct (int_of_str limit time_str) as [time|e].
      * split.
        -- intros [= <-]. cbn [tr_time tr_pid tr_old tr_new]. repeat split; lia.
        -- intros (_ & _ & _ & [= Ht] & Hp & Ho & Hn).
           destruct tr; cbn [tr_time tr_pid tr_old tr_new] in *. now subst.
      * split; [discriminate | intros (_ & _ & _ & ? & _); discriminate].
  - cbn [negb]. destruct (startswith (strip l) "+");
      (split; [discriminate | intros (? & _); discriminate]).
Qed.

(** ** Negative times *)

Lemma digit_value_nonneg c : is_digit c = true -> 0 <= digit_value c.
Proof.
  unfold is_digit, digit_value. intros H.
  apply andb_true_iff in H as [H _]. apply Nat.leb_le in H. lia.
Qed.

Lemma int_digits_nonneg l : forall prev_digit acc count v digits,
  0 <= acc ->
  int_digits prev_digit acc count l = Some (v, digits) ->
  0 <= v.
Proof.
  induction l as [|c l IH]; intros pd acc count v digits Hacc H; simpl in H.
  - destruct pd; [|discriminate]. injection H as <- _. assumption.
  - destruct (is_digit c) eqn:Hd.
    + eapply IH; [|exact H]. pose proof (digit_value_nonneg c Hd). lia.
    + destruct (Ascii.eqb c "_"); [|discriminate].
      destruct pd; [|discriminate]. eapply IH; [|exact H]. assumption.
Qed.

(** [int()] returns a negative number only for a literal with a minus
    sign. *)
Lemma int_of_str_negative limit s z :
  int_of_str limit s = Ok z -> z < 0 ->
  exists r, strip_chars int_isspace (list_ascii_of_string s) = "-"%char :: r.
Proof.
  unfold int_of_str. intros H Hz.
  destruct (strip_chars int_isspace (list_ascii_of_string s)) as [|c r].
  - simpl in H. discriminate.
  - destruct (Ascii.eqb_spec c "-") as [->|Hminus]; [eauto|].
    exfalso.
    destruct (Ascii.eqb c "+"); cbn [fst snd] in H;
      match type of H with
      | match int_digits false 0 0 ?b with _ => _ end = _ =>
          destruct (int_digits false 0 0 b) as [[v digits]|] eqn:Hd;
            [|discriminate]
      end;
      (apply int_digits_nonneg in Hd; [|lia]);
      (destruct ((0 <? limit)%nat && (limit <? digits)%nat);
         [discriminate|]);
      injection H as <-; lia.
Qed.

Lemma lstrip_head sp l c r : lstrip_chars sp l = c :: r -> sp c = false.
Proof.
  induction l as [|a l IH]; simpl; [discriminate|].
  destruct (sp a) eqn:Ha; [assumption|]. intros [= <- _]. assumption.
Qed.

Lemma lstrip_suffix sp l : exists p, l = p ++ lstrip_chars sp l.
Proof.
  induction l as [|a l [p IH]]; simpl.
  - now exists [].
  - destruct (sp a).
    + exists (a :: p). simpl. now rewrite <- IH.
    + now exists [].
Qed.

Lemma rstrip_prefix sp l : exists q, l = rstrip_chars sp l ++ q.
Proof.
  unfold rstrip_chars. destruct (lstrip_suffix sp (rev l)) as [p Hp].
  exists (rev p). rewrite <- rev_app_distr, <- Hp. now rewrite rev_involutive.
Qed.

Lemma strip_head sp l c r : strip_chars sp l = c :: r -> sp c = false.
Proof.
  unfold strip_chars. intros H.
  destruct (rstrip_prefix sp (lstrip_chars sp l)) as [q Hq].
  rewrite H in Hq. simpl in Hq. eapply lstrip_head, Hq.
Qed.

Lemma int_isspace_isspace c : isspace c = false -> int_isspace c = false.
Proof.
  unfold isspace, int_isspace. intros H.
  set (n := nat_of_ascii c) in *.
  destruct (Nat.leb_spec 9 n), (Nat.leb_spec n 13), (Nat.leb_spec 28 n),
           (Nat.leb_spec n 32), (Nat.eqb_spec n 133), (Nat.eqb_spec n 160),
           (Nat.eqb_spec n 32);
    simpl in *; try reflexivity; try discriminate; lia.
Qed.

(** A stripped field that [int()] reads as a negative number begins with
    a minus sign. *)
Lemma stripped_negative limit x z :
  int_of_str limit (strip x) = Ok z -> z < 0 ->
  startswith (strip x) "-" = true.
Proof.
  intros H Hz. destruct (int_of_str_negative _ _ _ H Hz) as [r Hr].
  unfold strip in *. rewrite list_ascii_of_string_of_list_ascii in Hr.
  destruct (strip_chars isspace (list_ascii_of_string x)) as [|c l'] eqn:Hs.
  - discriminate.
  - apply strip_head, int_isspace_isspace in Hs.
    unfold strip_chars in Hr. simpl in Hr. rewrite Hs in Hr.
    destruct (rstrip_prefix int_isspace (c :: l')) as [q Hq].
    rewrite Hr in Hq. injection Hq as -> _.
    reflexivity.
Qed.

(** C4 (as the code behaves): the transitions that [parse_execution_file]
    returns are exactly those read from the accepted rows: table rows of at
    least 5 segments whose time field does not begin with "Time" and is
    converted by [int()]. Rows with fewer than 5 segments, header rows and
    rows whose time field is not an integer literal yield nothing. The time
    of a returned transition is the integer so read; it may be negative, and
    is so only when the time field begins with a minus sign. *)
Theorem parse_execution_file_rows (limit : nat) (lines : list string)
    (tr : transition) :
  (tr ∈ parse_execution_file limit lines <->
   exists line, line ∈ lines /\ accepted_row limit line tr) /\
  (forall line, accepted_row limit line tr -> tr_time tr < 0 ->
                startswith (column 1 line) "-" = true).
Proof.
  split.
  - rewrite parse_execution_file_omap, list_elem_of_omap.
    split; intros (line & Hin & Hrow); exists line;
      (split; [assumption|]); now apply parse_row_accepted.
  - intros line (_ & Hlen & _ & Hint & _) Hneg.
    unfold column, columns in *.
    destruct (split "|" (rstrip_newline line)) as [|c0 [|x rest]];
      simpl in *; try lia.
    eapply stripped_negative; eassumption.
Qed.

(** C4 fails as stated: the row [|  -5 |  1 |  NEW |  READY |] is kept, and
    the transition returned for it has the negative time -5. *)
Lemma parse_keeps_negative_time :
  parse_execution_file 4300 negative_time_file
    = [ Transition (-5) "1" "NEW" "READY" ] /\
  ~ Forall (fun tr => 0 <= tr_time tr)
           (parse_execution_file 4300 negative_time_file).
Proof.
  assert (H : parse_execution_file 4300 negative_time_file
              = [ Transition (-5) "1" "NEW" "READY" ])
    by (vm_compute; reflexivity).
  split; [exact H|]. rewrite H. intros Hall.
  inversion Hall as [|? ? Hneg _]. simpl in Hneg. lia.
Qed.

(** * Further properties of the scan *)

Lemma first_run_step st tr :
  first_run (step st tr) =
  if String.eqb (tr_new tr) "RUNNING"
  then match first_run st !! tr_pid tr with
       | None => <[tr_pid tr := tr_time tr]> (first_run st)
       | Some _ => first_run st
       end
  else first_run st.
Proof.
  unfold step, on_ready_again, on_terminated, on_running, on_arrival.
  destruct (String.eqb (tr_new tr) "READY"), (String.eqb (tr_old tr) "NEW"),
           (String.eqb (tr_new tr) "RUNNING"),
           (String.eqb (tr_new tr) "TERMINATED"),
           (String.eqb (tr_old tr) "WAITING"); reflexivity.
Qed.

Lemma filter_singleton_True {A} (P : A -> Prop) `{forall x, Decision (P x)} x :
  P x -> filter P [x] = [x].
Proof. intros HP. now rewrite filter_cons_True by assumption. Qed.

Lemma filter_singleton_False {A} (P : A -> Prop) `{forall x, Decision (P x)} x :
  ~ P x -> filter P [x] = [].
Proof. intros HP. now rewrite filter_cons_False by assumption. Qed.

(** A dictionary that the loop body writes with [d[pid] = time] under the
    condition [c], and not otherwise, holds for each process the time of
    the last transition of that process that satisfies [c]. *)
Lemma last_write_lookup (field : timelines -> gmap string Z)
    (c : transition -> bool) :
  field empty_timelines = ∅ ->
  (forall st tr, field (step st tr) =
                 if c tr then <[tr_pid tr := tr_time tr]> (field st)
                 else field st) ->
  forall ts p,
    field (scan ts) !! p
    = last (tr_time <$> filter (fun tr => tr_pid tr = p /\ c tr = true) ts).
Proof.
  intros Hempty Hstep ts p.
  induction ts as [|tr ts IH] using rev_ind.
  - unfold scan. simpl. rewrite Hempty. apply lookup_empty.
  - rewrite scan_snoc, Hstep, filter_app, fmap_app.
    destruct (c tr) eqn:Hc.
    + destruct (decide (tr_pid tr = p)) as [Hp|Hp].
      * rewrite filter_singleton_True by auto. simpl.
        rewrite last_snoc, Hp. apply lookup_insert_eq.
      * rewrite filter_singleton_False by tauto.
        rewrite lookup_insert_ne by assumption.
        simpl. now rewrite app_nil_r.
    + rewrite filter_singleton_False by (rewrite Hc; intros [_ ?]; discriminate).
      simpl. now rewrite app_nil_r.
Qed.

(** X1: for every trace and process, [first_run] holds the time of the
    FIRST transition of that process into RUNNING (later dispatches do not
    change it), and nothing when the process never enters RUNNING. *)
Theorem first_run_is_first_dispatch (ts : list transition) (p : string) :
  first_run (scan ts) !! p = head (dispatch_times p ts).
Proof.
  unfold dispatch_times.
  induction ts as [|tr ts IH] using rev_ind; [reflexivity|].
  rewrite scan_snoc, first_run_step, filter_app, fmap_app.
  destruct (String.eqb_spec (tr_new tr) "RUNNING") as [Hn|Hn].
  - destruct (decide (tr_pid tr = p)) as [Hp|Hp].
    + rewrite filter_singleton_True by auto. simpl. rewrite Hp.
      destruct (first_run (scan ts) !! p) as [x|] eqn:Hx.
      * rewrite Hx.
        destruct (tr_time <$> filter _ ts) as [|y l]; [discriminate|].
        exact IH.
      * rewrite lookup_insert_eq.
        destruct (tr_time <$> filter _ ts) as [|y l]; [reflexivity|].
        discriminate.
    + rewrite filter_singleton_False by tauto. simpl. rewrite app_nil_r.
      destruct (first_run (scan ts) !! tr_pid tr); [assumption|].
      now rewrite lookup_insert_ne by assumption.
  - rewrite filter_singleton_False by tauto. simpl. now rewrite app_nil_r.
Qed.

(** X2: for every trace and process, [finish_time] holds the time of the
    LAST transition of that process into TERMINATED, and nothing when the
    process never enters TERMINATED. *)
Theorem finish_is_last_completion (ts : list transition) (p : string) :
  finish_time (scan ts) !! p = last (completion_times p ts).
Proof.
  rewrite (last_write_lookup finish_time is_completion);
    [|reflexivity|apply finish_time_step].
  unfold completion_times, is_completion. do 2 f_equal.
  apply list_filter_iff. intros tr.
  now rewrite String.eqb_eq.
Qed.

(** X3: for every trace and process, [last_ready_time] holds the time of
    the last transition of that process into READY from NEW or from
    WAITING. A transition into READY from any other state (a preempted
    process going RUNNING -> READY) leaves it as it was. *)
Theorem last_ready_is_last_ready_entry (ts : list transition) (p : string) :
  last_ready_time (scan ts) !! p = last (ready_times p ts).
Proof.
  rewrite (last_write_lookup last_ready_time
             (fun tr => String.eqb (tr_new tr) "READY"
                        && (String.eqb (tr_old tr) "NEW"
                            || String.eqb (tr_old tr) "WAITING")));
    [|reflexivity|apply last_ready_time_step].
  unfold ready_times. do 2 f_equal.
  apply list_filter_iff. intros tr.
  rewrite andb_true_iff, orb_true_iff, !String.eqb_eq. tauto.
Qed.

Lemma last_write_dom (field : timelines -> gmap string Z)
    (c : transition -> bool) :
  field empty_timelines = ∅ ->
  (forall st tr, field (step st tr) =
                 if c tr then <[tr_pid tr := tr_time tr]> (field st)
                 else field st) ->
  forall ts, dom (field (scan ts)) = pids_where c ts.
Proof.
  intros Hempty Hstep ts. apply set_eq. intros p.
  rewrite elem_of_dom, (last_write_lookup field c Hempty Hstep).
  unfold pids_where. rewrite elem_of_list_to_set, list_elem_of_fmap.
  rewrite last_is_Some. split.
  - intros Hne.
    destruct (filter (fun tr => tr_pid tr = p /\ c tr = true) ts)
      as [|tr l] eqn:Hf; [contradiction|].
    assert (Hin : tr ∈ filter (fun tr => tr_pid tr = p /\ c tr = true) ts)
      by (rewrite Hf; left).
    apply list_elem_of_filter in Hin as [[Hp Hc] Hin].
    exists tr. split; [auto|]. apply list_elem_of_filter. auto.
  - intros (tr & -> & Hin). apply list_elem_of_filter in Hin as [Hc Hin].
    intros Hnil.
    assert (Hin' : tr ∈ filter (fun tr0 => tr_pid tr0 = tr_pid tr /\ c tr0 = true) ts)
      by (apply list_elem_of_filter; auto).
    apply fmap_nil_inv in Hnil. rewrite Hnil in Hin'. inversion Hin'.
Qed.

(** X4: the processes with an arrival time are exactly those with a
    NEW -> READY transition, and the processes with a finish time exactly
    those with a transition into TERMINATED; so [n] counts the former (1 if
    there is none) and the latest finish time ranges over the latter. *)
Theorem recorded_processes (ts : list transition) :
  dom (arrivals (scan ts)) = pids_where is_arrival ts /\
  dom (finish_time (scan ts)) = pids_where is_completion ts /\
  process_count (scan ts)
    = Z.max 1 (Z.of_nat (size (pids_where is_arrival ts))).
Proof.
  assert (Ha : dom (arrivals (scan ts)) = pids_where is_arrival ts)
    by (apply last_write_dom; [reflexivity|apply arrivals_step]).
  split; [exact Ha|]. split.
  - apply last_write_dom; [reflexivity|apply finish_time_step].
  - rewrite process_count_floor, <- Ha, size_dom. reflexivity.
Qed.

(** ** Transitions that change nothing *)

Lemma step_irrelevant st tr : relevant tr = false -> step st tr = st.
Proof.
  unfold relevant, step, on_ready_again, on_terminated, on_running,
    on_arrival.
  destruct (String.eqb (tr_new tr) "READY"), (String.eqb (tr_old tr) "NEW"),
           (String.eqb (tr_new tr) "RUNNING"),
           (String.eqb (tr_new tr) "TERMINATED"),
           (String.eqb (tr_old tr) "WAITING");
    simpl; intros H; try discriminate H; reflexivity.
Qed.

Lemma scan_from_relevant ts : forall st,
  scan_from st (filter (fun tr => relevant tr = true) ts) = scan_from st ts.
Proof.
  induction ts as [|tr ts IH]; intros st; [reflexivity|].
  destruct (relevant tr) eqn:Hr.
  - rewrite filter_cons_True by assumption. rewrite !scan_from_cons. apply IH.
  - rewrite filter_cons_False by (rewrite Hr; discriminate).
    rewrite scan_from_cons, step_irrelevant by assumption. apply IH.
Qed.

Lemma compute_metrics_of_scan ts1 ts2 :
  scan ts1 = scan ts2 -> compute_metrics ts1 = compute_metrics ts2.
Proof. intros H. unfold compute_metrics. now rewrite H. Qed.

(** X5: transitions on which none of the four tests of the loop body holds
    (RUNNING -> WAITING, RUNNING -> READY, any unknown state name, ...) have
    no effect: dropping them from the trace changes neither the
    dictionaries nor the result of [compute_metrics]. *)
Theorem irrelevant_transitions_ignored (ts : list transition) :
  scan (filter (fun tr => relevant tr = true) ts) = scan ts /\
  compute_metrics (filter (fun tr => relevant tr = true) ts)
    = compute_metrics ts.
Proof.
  assert (H : scan (filter (fun tr => relevant tr = true) ts) = scan ts)
    by apply scan_from_relevant.
  split; [exact H|]. now apply compute_metrics_of_scan.
Qed.

(** ** Interleaving *)

Lemma timelines_ext st1 st2 :
  (forall p, view p st1 = view p st2) -> st1 = st2.
Proof.
  intros H. destruct st1 as [a1 r1 f1 w1 l1], st2 as [a2 r2 f2 w2 l2].
  f_equal; apply map_eq; intros p; specialize (H p); unfold view in H;
    simpl in H; congruence.
Qed.

Lemma lifecycle_absent p ts : p ∉ tr_pid <$> ts -> lifecycle p ts = [].
Proof.
  unfold lifecycle. induction ts as [|tr ts IH]; intros Hp; [reflexivity|].
  rewrite fmap_cons in Hp. apply not_elem_of_cons in Hp as [Hne Hp].
  rewrite filter_cons_False by congruence. auto.
Qed.

Lemma same_lifecycles_spec ts1 ts2 :
  same_lifecycles ts1 ts2 = true ->
  forall p, lifecycle p ts1 = lifecycle p ts2.
Proof.
  intros H p. unfold same_lifecycles in H.
  rewrite List.forallb_forall in H.
  destruct (decide (p ∈ tr_pid <$> (ts1 ++ ts2))) as [Hin|Hout].
  - apply list_elem_of_fmap in Hin as (tr & -> & Hin).
    apply list_elem_of_In in Hin. specialize (H tr Hin).
    now apply bool_decide_eq_true in H.
  - rewrite fmap_app in Hout. apply not_elem_of_app in Hout as [H1 H2].
    now rewrite !lifecycle_absent.
Qed.

(** X6: only the order of the transitions of each process matters: two
    traces in which every process has the same transitions in the same
    order, however the processes are interleaved, give the same
    dictionaries and the same result of [compute_metrics]. *)
Theorem interleaving_irrelevant (ts1 ts2 : list transition) :
  same_lifecycles ts1 ts2 = true ->
  scan ts1 = scan ts2 /\ compute_metrics ts1 = compute_metrics ts2.
Proof.
  intros H. pose proof (same_lifecycles_spec ts1 ts2 H) as Hl.
  assert (Hs : scan ts1 = scan ts2).
  { apply timelines_ext. intros p. now rewrite !view_scan, Hl. }
  split; [exact Hs|]. now apply compute_metrics_of_scan.
Qed.

Lemma interleaving_irrelevant_witness :
  same_lifecycles interleaved_trace regrouped_trace = true /\
  scan interleaved_trace = scan regrouped_trace /\
  compute_metrics interleaved_trace = compute_metrics regrouped_trace.
Proof.
  assert (H : same_lifecycles interleaved_trace regrouped_trace = true)
    by (vm_compute; reflexivity).
  split; [exact H|].
  exact (interleaving_irrelevant interleaved_trace regrouped_trace H).
Defined.

(** ** Entries that come together *)

Lemma view_arrival_consistent tr v :
  marks_consistent v -> marks_consistent (view_arrival tr v).
Proof.
  unfold marks_consistent, view_arrival. intros [H1 H2].
  destruct (String.eqb (tr_new tr) "READY" && String.eqb (tr_old tr) "NEW");
    simpl; [|auto].
  split; [eauto|]. intros Hw. split; [apply H2, Hw|eauto].
Qed.

Lemma view_running_consistent tr v :
  marks_consistent v -> marks_consistent (view_running tr v).
Proof.
  unfold marks_consistent, view_running. intros [H1 H2].
  destruct (String.eqb (tr_new tr) "RUNNING"); simpl; [|auto].
  split; [assumption|].
  destruct (v_last_ready v) as [r|] eqn:Hr.
  - intros _. split; [|eauto]. destruct (v_first_run v); eauto.
  - intros Hw. destruct (H2 Hw) as [_ [x Hx]]. discriminate.
Qed.

Lemma view_terminated_consistent tr v :
  marks_consistent v -> marks_consistent (view_terminated tr v).
Proof.
  unfold marks_consistent, view_terminated. intros [H1 H2].
  destruct (String.eqb (tr_new tr) "TERMINATED"); simpl; auto.
Qed.

Lemma view_ready_again_consistent tr v :
  marks_consistent v -> marks_consistent (view_ready_again tr v).
Proof.
  unfold marks_consistent, view_ready_again. intros [H1 H2].
  destruct (String.eqb (tr_new tr) "READY"
            && String.eqb (tr_old tr) "WAITING"); simpl; [|auto].
  split; [eauto|]. intros Hw. split; [apply H2, Hw|eauto].
Qed.

Lemma fold_consistent l : forall v,
  marks_consistent v -> marks_consistent (fold_left view_step l v).
Proof.
  induction l as [|tr l IH]; intros v Hv; [assumption|].
  simpl. apply IH. unfold view_step.
  now apply view_ready_again_consistent, view_terminated_consistent,
    view_running_consistent, view_arrival_consistent.
Qed.

(** X7: after the scan of any trace, every process with an arrival time
    has a last ready time, and every process with a waiting time has a
    first run time and a last ready time: a process that never entered
    READY from NEW or WAITING accumulates no waiting time. *)
Theorem recorded_together (ts : list transition) :
  dom (arrivals (scan ts)) ⊆ dom (last_ready_time (scan ts)) /\
  dom (wait_time (scan ts)) ⊆ dom (first_run (scan ts)) /\
  dom (wait_time (scan ts)) ⊆ dom (last_ready_time (scan ts)).
Proof.
  assert (H : forall p, marks_consistent (view p (scan ts))).
  { intros p. rewrite view_scan. apply fold_consistent.
    split; intros [x Hx]; discriminate. }
  repeat split; intros p; rewrite !elem_of_dom; intros Hp;
    destruct (H p) as [H1 H2]; simpl in H1, H2; [auto| |]; now apply H2.
Qed.

(** ** Signs of the metrics *)

Lemma view_step_last_ready v tr :
  v_last_ready (view_step v tr) = v_last_ready v \/
  v_last_ready (view_step v tr) = Some (tr_time tr).
Proof.
  unfold view_step, view_ready_again, view_terminated, view_running,
    view_arrival.
  destruct (String.eqb (tr_new tr) "READY"), (String.eqb (tr_old tr) "NEW"),
           (String.eqb (tr_new tr) "RUNNING"),
           (String.eqb (tr_new tr) "TERMINATED"),
           (String.eqb (tr_old tr) "WAITING"); simpl; auto.
Qed.

Lemma view_step_wait v tr w :
  v_wait (view_step v tr) = Some w ->
  v_wait v = Some w \/
  exists r, (v_last_ready v = Some r \/ r = tr_time tr) /\
            w = default 0 (v_wait v) + (tr_time tr - r).
Proof.
  unfold view_step, view_ready_again, view_terminated, view_running,
    view_arrival.
  destruct (String.eqb (tr_new tr) "READY"), (String.eqb (tr_old tr) "NEW"),
           (String.eqb (tr_new tr) "RUNNING"),
           (String.eqb (tr_new tr) "TERMINATED"),
           (String.eqb (tr_old tr) "WAITING"); simpl; auto;
    first
      [ solve [ intros [= <-]; right; exists (tr_time tr);
                split; [right; reflexivity|reflexivity] ]
      | destruct (v_last_ready v) as [r|];
        [ intros [= <-]; right; exists r;
          split; [left; reflexivity|reflexivity]
        | auto ] ].
Qed.

Lemma wait_nonneg_fold l : forall v,
  nondecreasing (tr_time <$> l) = true ->
  (forall r, v_last_ready v = Some r -> Forall (fun tr => r <= tr_time tr) l) ->
  (forall w, v_wait v = Some w -> 0 <= w) ->
  forall w, v_wait (fold_left view_step l v) = Some w -> 0 <= w.
Proof.
  induction l as [|tr l IH]; intros v Hord Hready Hwait w Hw.
  - exact (Hwait w Hw).
  - simpl in Hw. rewrite fmap_cons in Hord.
    pose proof (nondecreasing_bound _ _ Hord) as Hlater.
    rewrite Forall_fmap in Hlater.
    apply (IH (view_step v tr)) with (w := w); [| | |exact Hw].
    + eapply nondecreasing_tail, Hord.
    + intros r Hr. destruct (view_step_last_ready v tr) as [He|He];
        rewrite He in Hr.
      * specialize (Hready r Hr). now inversion Hready.
      * injection Hr as <-. exact Hlater.
    + intros w' Hw'. destruct (view_step_wait v tr w' Hw')
        as [Hold|(r & [Hr|Hr] & ->)].
      * exact (Hwait w' Hold).
      * specialize (Hready r Hr). inversion Hready as [|? ? Hle _]; subst.
        destruct (v_wait v) as [w0|] eqn:Hw0; simpl.
        -- specialize (Hwait w0 eq_refl). lia.
        -- lia.
      * subst r. destruct (v_wait v) as [w0|] eqn:Hw0; simpl.
        -- specialize (Hwait w0 eq_refl). lia.
        -- lia.
Qed.

Lemma dict_sum_nonneg (d : gmap string Z) :
  (forall k v, d !! k = Some v -> 0 <= v) -> 0 <= dict_sum d.
Proof.
  unfold dict_sum.
  apply (map_fold_weak_ind
           (fun acc (m : gmap string Z) =>
              (forall k v, m !! k = Some v -> 0 <= v) -> 0 <= acc)).
  - intros _. lia.
  - intros k v m acc Hk IH Hall.
    assert (0 <= v) by (apply (Hall k); apply lookup_insert_eq).
    assert (0 <= acc).
    { apply IH. intros j x Hj. apply (Hall j).
      rewrite lookup_insert_ne; [assumption|]. intros ->. congruence. }
    lia.
Qed.

Lemma wait_entries_nonneg ts :
  time_ordered_trace ts = true ->
  forall p w, wait_time (scan ts) !! p = Some w -> 0 <= w.
Proof.
  intros Hord p w Hw.
  change (v_wait (view p (scan ts)) = Some w) in Hw. rewrite view_scan in Hw.
  destruct (lifecycle p ts) as [|x l] eqn:Hl; [discriminate|].
  assert (Hx : x ∈ lifecycle p ts) by (rewrite Hl; left).
  apply list_elem_of_filter in Hx as [Hp Hin]. apply list_elem_of_In in Hin.
  unfold time_ordered_trace in Hord. rewrite List.forallb_forall in Hord.
  specialize (Hord x Hin). simpl in Hord. rewrite Hp, Hl in Hord.
  eapply (wait_nonneg_fold (x :: l) empty_view); [exact Hord| | |exact Hw];
    intros ? [=].
Qed.

(** X8: when the time stamps of each process never go back along the
    trace, no waiting interval is negative: every entry of [wait_time] is
    at least 0 and so is the [avg_wait_time] of a returned record. *)
Theorem wait_nonnegative (ts : list transition) :
  time_ordered_trace ts = true ->
  (forall p w, wait_time (scan ts) !! p = Some w -> 0 <= w) /\
  (forall m, compute_metrics ts = Ok m -> (0 <= avg_wait_time m)%Qc).
Proof.
  intros Hord. split; [now apply wait_entries_nonneg|].
  intros m Hm.
  destruct (compute_metrics_returned ts m Hm) as (_ & _ & latest & _ & ->).
  cbn [avg_wait_time]. pose proof (process_count_pos (scan ts)).
  apply nearest_double_nonneg; [|lia].
  apply dict_sum_nonneg. now apply wait_entries_nonneg.
Qed.

Lemma wait_nonnegative_witness :
  time_ordered_trace preempted_trace = true /\
  (forall p w, wait_time (scan preempted_trace) !! p = Some w -> 0 <= w) /\
  (forall m, compute_metrics preempted_trace = Ok m ->
             (0 <= avg_wait_time m)%Qc).
Proof.
  assert (H : time_ordered_trace preempted_trace = true) by reflexivity.
  split; [exact H|]. exact (wait_nonnegative preempted_trace H).
Defined.

(** X9: the throughput of a returned record is never negative. It is 0
    when the latest finish time is not positive, and positive when the
    latest finish time is positive and at most [n * 2 ^ 1074], the quotient
    being then at least the least positive double; a positive throughput
    has a positive latest finish time. *)
Theorem throughput_sign (ts : list transition) (m : metrics) :
  compute_metrics ts = Ok m ->
  (0 <= throughput m)%Qc /\
  forall latest, is_latest (finish_time (scan ts)) latest ->
    (latest <= 0 -> throughput m = Q2Qc 0) /\
    (0 < latest <= process_count (scan ts) * double_scale ->
     (0 < throughput m)%Qc) /\
    ((0 < throughput m)%Qc -> 0 < latest).
Proof.
  intros Hm.
  destruct (compute_metrics_returned ts m Hm) as (_ & _ & l & Hl & ->).
  pose proof (process_count_pos (scan ts)) as Hn. cbn [throughput]. split.
  - destruct (Z.ltb_spec 0 l); [|apply Qcle_refl].
    apply nearest_double_nonneg; lia.
  - intros latest Hlat. rewrite (is_latest_unique _ _ _ Hlat Hl).
    destruct (Z.ltb_spec 0 l) as [Hpos|Hle].
    + split; [lia|]. split; [|intros _; assumption].
      intros [_ Hup]. apply nearest_double_pos; lia.
    + split; [reflexivity|]. split; [lia|].
      intros H. exfalso. apply (Qclt_not_eq _ _ H). reflexivity.
Qed.

Lemma throughput_sign_witness :
  exists m,
    compute_metrics preempted_trace = Ok m /\
    (0 <= throughput m)%Qc /\
    forall latest, is_latest (finish_time (scan preempted_trace)) latest ->
      (latest <= 0 -> throughput m = Q2Qc 0) /\
      (0 < latest <= process_count (scan preempted_trace) * double_scale ->
       (0 < throughput m)%Qc) /\
      ((0 < throughput m)%Qc -> 0 < latest).
Proof.
  eexists. split; [vm_compute; reflexivity|].
  apply (throughput_sign preempted_trace). vm_compute. reflexivity.
Defined.

(** A latest finish time beyond [n * 2 ^ 1075] leaves a throughput of 0:
    the quotient is below half the least positive double. *)
Example throughput_underflow :
  exists m, compute_metrics late_completion_trace = Ok m /\
            throughput m = Q2Qc 0.
Proof.
  eexists. split; [vm_compute; reflexivity|].
  apply Qc_is_canon. vm_compute. reflexivity.
Qed.

(** ** A process dispatched once *)

Lemma view_step_dispatch v b :
  tr_new b = "RUNNING" ->
  view_step v b =
  ProcessView (v_arrival v)
              (match v_first_run v with
               | None => Some (tr_time b)
               | Some r => Some r
               end)
              (v_finish v)
              (match v_last_ready v with
               | Some ready => Some (default 0 (v_wait v) + (tr_time b - ready))
               | None => v_wait v
               end)
              (v_last_ready v).
Proof. destruct b as [t p o n]. simpl. intros ->. reflexivity. Qed.

Lemma view_step_quiet v tr :
  String.eqb (tr_new tr) "RUNNING" = false -> is_arrival tr = false ->
  v_arrival (view_step v tr) = v_arrival v /\
  v_first_run (view_step v tr) = v_first_run v /\
  v_wait (view_step v tr) = v_wait v.
Proof.
  unfold is_arrival, view_step, view_ready_again, view_terminated,
    view_running, view_arrival.
  intros -> ->.
  destruct (String.eqb (tr_new tr) "TERMINATED"),
           (String.eqb (tr_new tr) "READY" && String.eqb (tr_old tr) "WAITING");
    simpl; auto.
Qed.

Lemma view_tail_quiet rest : forall v,
  forallb (fun tr => negb (String.eqb (tr_new tr) "RUNNING")
                     && negb (is_arrival tr)) rest = true ->
  v_arrival (fold_left view_step rest v) = v_arrival v /\
  v_first_run (fold_left view_step rest v) = v_first_run v /\
  v_wait (fold_left view_step rest v) = v_wait v.
Proof.
  induction rest as [|tr rest IH]; intros v Hall; [auto|].
  simpl in Hall. apply andb_true_iff in Hall as [Htr Hall].
  apply andb_true_iff in Htr as [Hrun Harr].
  apply negb_true_iff in Hrun, Harr.
  destruct (view_step_quiet v tr Hrun Harr) as (Ha & Hr & Hw).
  destruct (IH (view_step v tr) Hall) as (Ha' & Hr' & Hw').
  simpl. repeat split; congruence.
Qed.

(** X10: for a process whose transitions are a NEW -> READY, then a
    dispatch, and after that no further dispatch and no further arrival,
    the waiting time accumulated equals its response time (first run
    minus arrival). *)
Theorem wait_is_response_when_dispatched_once (ts : list transition)
    (p : string) :
  dispatched_once (lifecycle p ts) = true ->
  is_Some (response (scan ts) !! p) /\
  wait_time (scan ts) !! p = response (scan ts) !! p.
Proof.
  intros H.
  assert (Hv : exists ta tb,
             v_arrival (view p (scan ts)) = Some ta /\
             v_first_run (view p (scan ts)) = Some tb /\
             v_wait (view p (scan ts)) = Some (tb - ta)).
  { rewrite view_scan.
    destruct (lifecycle p ts) as [|a [|b rest]]; try discriminate.
    simpl in H. apply andb_true_iff in H as [H Hrest].
    apply andb_true_iff in H as [Ha Hb].
    unfold is_arrival in Ha. apply andb_true_iff in Ha as [Han Hao].
    apply String.eqb_eq in Han, Hao, Hb.
    exists (tr_time a), (tr_time b).
    change (fold_left view_step (a :: b :: rest) empty_view)
      with (fold_left view_step rest
              (view_step (view_step empty_view a) b)).
    destruct (view_tail_quiet rest (view_step (view_step empty_view a) b)
                Hrest) as (-> & -> & ->).
    rewrite (view_step_dispatch _ b Hb), (view_step_new_ready _ a Hao Han).
    simpl. auto. }
  destruct Hv as (ta & tb & Ha & Hr & Hw). simpl in Ha, Hr, Hw.
  unfold response. rewrite map_lookup_imap, Ha. simpl. rewrite Hr, Hw.
  split; [eauto|reflexivity].
Qed.

Lemma wait_is_response_when_dispatched_once_witness :
  dispatched_once (lifecycle "1" interleaved_trace) = true /\
  is_Some (response (scan interleaved_trace) !! "1") /\
  wait_time (scan interleaved_trace) !! "1"
    = response (scan interleaved_trace) !! "1".
Proof.
  assert (H : dispatched_once (lifecycle "1" interleaved_trace) = true)
    by reflexivity.
  split; [exact H|].
  exact (wait_is_response_when_dispatched_once interleaved_trace "1" H).
Defined.

(** * Further properties of the reader *)

Lemma parse_row_not_table limit line :
  table_row line = false -> parse_row limit line = None.
Proof.
  unfold table_row, parse_row. intros ->.
  destruct (startswith (strip (rstrip_newline line)) "+"); reflexivity.
Qed.

Lemma omap_cons_eq {A B} (f : A -> option B) x (l : list A) :
  omap f (x :: l)
  = match f x with Some y => y :: omap f l | None => omap f l end.
Proof. reflexivity. Qed.

Lemma length_omap_le {A B} (f : A -> option B) (l : list A) :
  (length (omap f l) <= length l)%nat.
Proof.
  induction l as [|x l IH]; [reflexivity|].
  change (omap f (x :: l))
    with (match f x with Some y => y :: omap f l | None => omap f l end).
  destruct (f x); simpl; lia.
Qed.

(** X11: the lines are read one by one and in order: the transitions of a
    concatenation of two lists of lines are those of the first followed by
    those of the second, and a list of lines never yields more transitions
    than it has lines. *)
Theorem parse_execution_file_app (limit : nat) (lines1 lines2 : list string) :
  parse_execution_file limit (lines1 ++ lines2)
    = parse_execution_file limit lines1 ++ parse_execution_file limit lines2
  /\
  (length (parse_execution_file limit lines1) <= length lines1)%nat.
Proof.
  rewrite !parse_execution_file_omap. split.
  - apply omap_app.
  - apply length_omap_le.
Qed.

(** X12: lines that are not table rows (borders, blank lines, free text)
    are passed over: removing them from the file leaves the transitions
    returned unchanged. *)
Theorem non_rows_skipped (limit : nat) (lines : list string) :
  parse_execution_file limit (filter (fun line => table_row line = true) lines)
    = parse_execution_file limit lines.
Proof.
  rewrite !parse_execution_file_omap.
  induction lines as [|line lines IH]; [reflexivity|].
  destruct (table_row line) eqn:Hrow.
  - rewrite filter_cons_True by assumption. rewrite !omap_cons_eq.
    now rewrite IH.
  - rewrite filter_cons_False by (rewrite Hrow; discriminate).
    rewrite omap_cons_eq. now rewrite (parse_row_not_table limit line Hrow).
Qed.

(** ** Stripped fields *)

Lemma lstrip_idem sp l :
  lstrip_chars sp (lstrip_chars sp l) = lstrip_chars sp l.
Proof.
  destruct (lstrip_chars sp l) as [|c r] eqn:Hl; [reflexivity|].
  simpl. now rewrite (lstrip_head sp l c r Hl).
Qed.

Lemma rstrip_idem sp l :
  rstrip_chars sp (rstrip_chars sp l) = rstrip_chars sp l.
Proof.
  unfold rstrip_chars. now rewrite rev_involutive, lstrip_idem.
Qed.

Lemma strip_chars_idem sp l :
  strip_chars sp (strip_chars sp l) = strip_chars sp l.
Proof.
  assert (Hl : lstrip_chars sp (strip_chars sp l) = strip_chars sp l).
  { destruct (strip_chars sp l) as [|c r] eqn:Hs; [reflexivity|].
    simpl. now rewrite (strip_head sp l c r Hs). }
  unfold strip_chars at 1. rewrite Hl. unfold strip_chars.
  apply rstrip_idem.
Qed.

Lemma strip_idem s : strip (strip s) = strip s.
Proof.
  unfold strip. rewrite list_ascii_of_string_of_list_ascii.
  now rewrite strip_chars_idem.
Qed.

Lemma parse_row_fields limit line tr :
  parse_row limit line = Some tr ->
  exists x y z,
    tr_pid tr = strip x /\ tr_old tr = strip y /\ tr_new tr = strip z.
Proof.
  unfold parse_row.
  destruct (startswith (strip (rstrip_newline line)) "+"); [discriminate|].
  destruct (startswith (strip (rstrip_newline line)) "|");
    cbn [negb]; [|discriminate].
  destruct (split "|" (rstrip_newline line))
    as [|c0 [|c1 [|c2 [|c3 [|c4 rest]]]]];
    cbn [fmap list_fmap]; try discriminate.
  destruct (startswith (strip c1) "Time"); [discriminate|].
  destruct (int_of_str limit (strip c1)); [|discriminate].
  intros [= <-]. cbn [tr_pid tr_old tr_new]. exists c2, c3, c4. auto.
Qed.

(** X13: the process id and the two state names of every transition
    returned carry no white space at either end (stripping them again
    changes nothing), however the columns of the table are padded. *)
Theorem returned_fields_stripped (limit : nat) (lines : list string) :
  Forall (fun tr => strip (tr_pid tr) = tr_pid tr /\
                    strip (tr_old tr) = tr_old tr /\
                    strip (tr_new tr) = tr_new tr)
         (parse_execution_file limit lines).
Proof.
  rewrite parse_execution_file_omap. apply Forall_forall. intros tr Hin.
  apply list_elem_of_omap in Hin as (line & _ & Hrow).
  destruct (parse_row_fields limit line tr Hrow) as (x & y & z & -> & -> & ->).
  now rewrite !strip_idem.
Qed.

(** ** The header row *)

Lemma lstrip_snoc sp x c :
  sp c = false -> exists q, lstrip_chars sp (x ++ [c]) = q ++ [c].
Proof.
  intros Hc. induction x as [|a x [q IH]]; simpl.
  - rewrite Hc. now exists [].
  - destruct (sp a).
    + now exists q.
    + now exists (a :: x).
Qed.

Lemma rstrip_cons sp c l :
  sp c = false -> exists l', rstrip_chars sp (c :: l) = c :: l'.
Proof.
  intros Hc. unfold rstrip_chars. simpl.
  destruct (lstrip_snoc sp (rev l) c Hc) as [q ->].
  exists (rev q). now rewrite rev_app_distr.
Qed.

(** X14: [int()] raises [ValueError] on every string that begins with
    "Time", so a header row would be dropped by the conversion of its time
    field even without the test on "Time". *)
Theorem header_never_converts (limit : nat) (s : string) :
  startswith s "Time" = true -> int_of_str limit s = Raise ValueError.
Proof.
  destruct s as [|c s]; cbn [startswith]; [discriminate|].
  destruct (Ascii.eqb_spec "T" c) as [<-|]; [|discriminate]. intros _.
  unfold int_of_str. cbn [list_ascii_of_string].
  unfold strip_chars.
  change (lstrip_chars int_isspace ("T"%char :: list_ascii_of_string s))
    with ("T"%char :: list_ascii_of_string s).
  destruct (rstrip_cons int_isspace "T" (list_ascii_of_string s) eq_refl)
    as [l' ->].
  reflexivity.
Qed.

Lemma header_never_converts_witness :
  startswith "Time of Transition" "Time" = true /\
  int_of_str 4300 "Time of Transition" = Raise ValueError.
Proof.
  assert (H : startswith "Time of Transition" "Time" = true) by reflexivity.
  split; [exact H|]. exact (header_never_converts 4300 _ H).
Defined.

(** ** The command line *)



(** [main] on the sample files: a table without completion, a path that
    names no file, an empty file, a wrong argument count, a completion
    beyond the largest double, and a completion at time 4. *)
Example main_sample :
  main 4300 sample_files ["metrics.py"; "execution.txt"] = Raise RuntimeError /\
  main 4300 sample_files ["metrics.py"; "missing.txt"] = Raise OSError /\
  main 4300 sample_files ["metrics.py"; "empty.txt"]
    = Ok [NoTransitionsMessage] /\
  main 4300 sample_files ["metrics.py"] = Ok [UsageMessage] /\
  main 4300 sample_files ["metrics.py"; "late.txt"] = Raise OverflowError /\
  exists m, main 4300 sample_files ["metrics.py"; "done.txt"]
            = Ok [MetricsReport "done.txt" m] /\
            throughput m = ratio 1 4 /\ avg_turnaround m = ratio 4 1.
Proof.
  split; [vm_compute; reflexivity|]. split; [vm_compute; reflexivity|].
  split; [vm_compute; reflexivity|]. split; [vm_compute; reflexivity|].
  split; [vm_compute; reflexivity|].
  eexists. split; [vm_compute; reflexivity|].
  split; apply Qc_is_canon; vm_compute; reflexivity.
Qed.
